(** * BlinkAi dashboard: authentication gate and statistics aggregator

    A shallow embedding of [src/middleware/auth.js], of the [/api/stats]
    handler of [src/server.js] and of the [SearchQuery] model it queries,
    followed by the properties of the specification that concern them.

    JavaScript values are a small inductive type with the language's
    truthiness; asynchronous functions are run to completion, so a rejected
    promise is an exception; the process-wide state (environment, the
    [adminUsers] array, the [search_queries] table, the clock and the log)
    is threaded through a state-and-exception monad. *)

From Stdlib Require Import ZArith List String Bool Lia Permutation Sorted.
From Stdlib Require Import DecimalString.
Import ListNotations.
Open Scope string_scope.
Open Scope list_scope.

Set Implicit Arguments.

(* ================================================================== *)
(** ** JavaScript values *)

#[warnings="-register-all"] Inductive jsval : Type :=
| JUndefined
| JNull
| JBool (b : bool)
| JNum (n : Z)
| JNaN
| JStr (s : string)
| JDate (ms : Z)
| JObj (props : list (string * jsval)).

(** ToBoolean: [undefined], [null], [false], [0], [NaN] and the empty string
    are falsy, everything else (objects included) is truthy. *)
Definition truthy (v : jsval) : bool :=
  match v with
  | JUndefined | JNull | JNaN => false
  | JBool b => b
  | JNum n => negb (n =? 0)%Z
  | JStr s => negb (s =? "")
  | JDate _ | JObj _ => true
  end.

(** [a || b] on values. *)
Definition js_or (a b : jsval) : jsval := if truthy a then a else b.

Fixpoint assoc {V : Type} (k : string) (l : list (string * V)) : option V :=
  match l with
  | [] => None
  | (k', v) :: l' => if k =? k' then Some v else assoc k l'
  end.

Inductive exn : Type :=
| TypeError (msg : string)
| Error (msg : string).

Inductive completion (A : Type) : Type :=
| Normal (a : A)
| Throw (e : exn).
Arguments Normal {A} a.
Arguments Throw {A} e.

(** [v.k] for the property names this program reads ([adminUser],
    [adminjs], [passport], [user], [version]), none of which is defined by
    a built-in prototype: an own property of an object, [undefined] on any other
    value, and a [TypeError] on [undefined] and [null], whose message names
    the value and the property as Node.js does. *)
Definition cannot_read (what : string) (k : string) : exn :=
  TypeError ("Cannot read properties of " ++ what ++ " (reading '" ++ k ++ "')").

Definition get_prop (v : jsval) (k : string) : completion jsval :=
  match v with
  | JUndefined => Throw (cannot_read "undefined" k)
  | JNull => Throw (cannot_read "null" k)
  | JObj props => match assoc k props with Some x => Normal x | None => Normal JUndefined end
  | _ => Normal JUndefined
  end.

Definition index_keys (n : nat) : list string :=
  map (fun i => NilZero.string_of_uint (Nat.to_uint i)) (seq 0 n).

(** [Object.keys(v)]. *)
Definition Object_keys (v : jsval) : completion (list string) :=
  match v with
  | JUndefined | JNull => Throw (TypeError "Cannot convert undefined or null to object")
  | JObj props => Normal (map fst props)
  | JStr s => Normal (index_keys (String.length s))
  | _ => Normal []
  end.

(* ================================================================== *)
(** ** Data *)

(** One entry of the [adminUsers] array. *)
Module AdminUser.
Record t : Type := make { email : string; password : string; role : string }.
End AdminUser.

(** What [authenticate] returns on success. *)
Module Principal.
Record t : Type := make { email : string; role : string }.
End Principal.

(** A row of the [search_queries] table.  [keyword], [platform_name],
    [search_type] and [created_at] are nullable; [created_at] is in
    milliseconds since the epoch. *)
Module Row.
Record t : Type := make {
  id : Z;
  keyword : option string;
  platform_name : option string;
  search_type : option string;
  created_at : option Z
}.
End Row.

Inductive LogEntry : Type :=
| LogInfo (msg : string)
| LogError (msg : string)
| LogErrorWith (msg : string) (e : exn)
| LogAuthCheck (keys : list string) (authenticated : bool).

(** The state of the process and of its collaborators. *)
Record World : Type := mkWorld {
  process_env : list (string * string);
  adminUsers : list AdminUser.t;
  search_queries : list Row.t;
  clock : Z;
  log : list LogEntry
}.

(* ================================================================== *)
(** ** Effects: state and exceptions *)

Definition M (A : Type) : Type := World -> completion A * World.

Definition ret {A} (a : A) : M A := fun w => (Normal a, w).

Definition bind {A B} (c : M A) (k : A -> M B) : M B :=
  fun w =>
    match c w with
    | (Normal a, w') => k a w'
    | (Throw e, w') => (Throw e, w')
    end.

Definition throw {A} (e : exn) : M A := fun w => (Throw e, w).

(** [try { body } catch (error) { handler }]: what [body] did to the state
    before it threw stays done. *)
Definition try_catch {A} (body : M A) (handler : exn -> M A) : M A :=
  fun w =>
    match body w with
    | (Normal a, w') => (Normal a, w')
    | (Throw e, w') => handler e w'
    end.

Definition lift {A} (c : completion A) : M A := fun w => (c, w).

Definition read {A} (f : World -> A) : M A := fun w => (Normal (f w), w).

Declare Scope js_scope.
Delimit Scope js_scope with js.
Notation "x <- c ;; k" := (bind c (fun x => k))
  (at level 61, c at next level, right associativity) : js_scope.
Notation "c ;; k" := (bind c (fun _ => k))
  (at level 61, right associativity) : js_scope.
Open Scope js_scope.

Definition logger (e : LogEntry) : M unit :=
  fun w => (Normal tt,
            mkWorld (process_env w) (adminUsers w) (search_queries w) (clock w)
                    (log w ++ [e])).

Definition adminUsers_push (u : AdminUser.t) : M unit :=
  fun w => (Normal tt,
            mkWorld (process_env w) (adminUsers w ++ [u]) (search_queries w)
                    (clock w) (log w)).

(** [process.env.NAME]: a string, or [undefined]. *)
Definition env_var (name : string) : M jsval :=
  read (fun w => match assoc name (process_env w) with
                 | Some s => JStr s
                 | None => JUndefined
                 end).

(* ================================================================== *)
(** ** The password-hashing primitive *)

(** The [argon2] package: [hash] draws a fresh salt, which is an argument
    here; [verify] answers, or rejects (malformed hash, internal error). *)
Class Argon2 : Type := {
  argon2_hash : string -> string -> string;
  argon2_verify : string -> string -> completion bool
}.

(* ================================================================== *)
(** ** middleware/auth.js *)

Section Auth.
Context {argon2 : Argon2}.

(** [process.env] holds strings, so past the emptiness test both values are
    strings; the other shapes share the failing branch. *)
Definition initializeAdminUser (salt : string) : M unit :=
  adminEmail <- env_var "ADMIN_EMAIL" ;;
  adminPassword <- env_var "ADMIN_PASSWORD" ;;
  match adminEmail, adminPassword with
  | JStr e, JStr p =>
      if negb (truthy adminEmail) || negb (truthy adminPassword) then
        logger (LogError "Admin credentials not set in environment variables") ;;
        throw (Error "Admin credentials not configured")
      else
        let hashedPassword := argon2_hash salt p in
        adminUsers_push (AdminUser.make e hashedPassword "admin") ;;
        logger (LogInfo "Admin user initialized")
  | _, _ =>
      logger (LogError "Admin credentials not set in environment variables") ;;
      throw (Error "Admin credentials not configured")
  end.

(** The [try] block either returns the principal or falls through to the
    final [return null]; the [catch] block logs and falls through. *)
Definition authenticate (email password : string) : M (option Principal.t) :=
  users <- read adminUsers ;;
  match find (fun u => AdminUser.email u =? email) users with
  | None => ret None
  | Some user =>
      returned <-
        try_catch
          (isValid <- lift (argon2_verify (AdminUser.password user) password) ;;
           if (isValid : bool)
           then ret (Some (Principal.make (AdminUser.email user) (AdminUser.role user)))
           else ret None)
          (fun error =>
             logger (LogErrorWith "Error during authentication:" error) ;;
             ret None) ;;
      match returned with
      | Some principal => ret (Some principal)
      | None => ret None
      end
  end.
End Auth.

(** An Express request, as far as the guards read it. *)
Record Request : Type := mkRequest { session : jsval }.

Definition checkAuth (req : Request) : M bool :=
  if negb (truthy (session req)) then
    logger (LogInfo "Auth check - no session found") ;;
    ret false
  else
    adminUser <- lift (get_prop (session req) "adminUser") ;;
    marker <-
      (if truthy adminUser then ret adminUser else
         adminjs <- lift (get_prop (session req) "adminjs") ;;
         if truthy adminjs then ret adminjs else
           passport <- lift (get_prop (session req) "passport") ;;
           if truthy passport then lift (get_prop passport "user")
           else ret passport) ;;
    let isAuthenticated := truthy marker in
    keys <- lift (Object_keys (session req)) ;;
    logger (LogAuthCheck keys isAuthenticated) ;;
    ret isAuthenticated.

(** An Express response, and what [res.json] is given by the code modelled
    here. *)
Section Express.
Variable Data : Type.

Inductive Body : Type :=
| BodyError (error : string)
| BodyStats (success : bool) (data : Data) (timestamp : Z).

Record Response : Type := mkResponse {
  statusCode : Z;
  location : option string;
  body : option Body
}.

Definition res_status (res : Response) (code : Z) : Response :=
  mkResponse code (location res) (body res).

Definition res_json (res : Response) (b : Body) : Response :=
  mkResponse (statusCode res) (location res) (Some b).

Definition res_redirect (res : Response) (url : string) : Response :=
  mkResponse 302 (Some url) (body res).

(** The guard for API routes; [next] is the rest of the route, the
    protected handler. *)
Definition requireAuth (req : Request) (res : Response)
           (next : Response -> M Response) : M Response :=
  authenticated <- checkAuth req ;;
  if (authenticated : bool) then next res
  else ret (res_json (res_status res 401) (BodyError "Unauthorized")).

(** The guard for HTML pages. *)
Definition requireAuthWeb (req : Request) (res : Response)
           (next : Response -> M Response) : M Response :=
  authenticated <- checkAuth req ;;
  if (authenticated : bool) then next res
  else ret (res_redirect res "/admin/login").
End Express.
Arguments BodyError {Data} error.

(* ================================================================== *)
(** ** The record store: what the queries of the handler compute

    The table is a list of its rows.  Its contents are the rows; the order
    of the list stands for the choices SQL leaves to the engine when it
    answers a query: grouping keeps NULL as a group of its own and lists
    the groups in the order in which their first rows stand in the list,
    and rows that tie under [ORDER BY] keep the order of the list.  Every
    order of the groups and of tied rows is the answer for some order of
    the list, and the engine may choose another one at each call, so two
    worlds hold the same records when their lists are permutations of each
    other, and what is stated for every list holds whatever the engine
    chooses.  NULL sorts as larger than every value (last in ascending,
    first in descending order); aggregates skip NULL.  Query failures of
    the store are not modelled. *)

Section Relational.
Variables (A K : Type).
Variable K_eqb : K -> K -> bool.

Fixpoint bump (k : K) (groups : list (K * nat)) : list (K * nat) :=
  match groups with
  | [] => [(k, 1)]
  | (k', n) :: gs => if K_eqb k k' then (k', S n) :: gs else (k', n) :: bump k gs
  end.

(** [SELECT key, COUNT(id) ... GROUP BY key] ([id] is never NULL). *)
Definition group_count (key : A -> K) (rows : list A) : list (K * nat) :=
  fold_left (fun groups r => bump (key r) groups) rows [].

Variable le : A -> A -> bool.

Fixpoint insert_by (x : A) (l : list A) : list A :=
  match l with
  | [] => [x]
  | y :: l' => if le x y then x :: l else y :: insert_by x l'
  end.

(** [ORDER BY]: rows that compare equal keep the order of the list. *)
Definition order_by (l : list A) : list A := fold_right insert_by [] l.
End Relational.

Fixpoint count_if {A : Type} (p : A -> bool) (l : list A) : nat :=
  match l with
  | [] => 0
  | x :: l' => (if p x then 1 else 0) + count_if p l'
  end.

Definition option_eqb {T : Type} (eqb : T -> T -> bool) (a b : option T) : bool :=
  match a, b with
  | Some x, Some y => eqb x y
  | None, None => true
  | _, _ => false
  end.

(** The order of a nullable timestamp or date column. *)
Definition null_last_leb (a b : option Z) : bool :=
  match a, b with
  | _, None => true
  | None, Some _ => false
  | Some x, Some y => (x <=? y)%Z
  end.

Definition sql_MIN (col : list (option Z)) : option Z :=
  fold_left (fun acc x => match acc, x with
                          | None, _ => x
                          | _, None => acc
                          | Some a, Some b => Some (Z.min a b)
                          end) col None.

Definition sql_MAX (col : list (option Z)) : option Z :=
  fold_left (fun acc x => match acc, x with
                          | None, _ => x
                          | _, None => acc
                          | Some a, Some b => Some (Z.max a b)
                          end) col None.

(** [DATE(created_at)]: the day number of the timestamp (the connection
    runs in UTC, the default of Sequelize). *)
Definition ms_per_day : Z := 86400000.
Definition sql_DATE (t : option Z) : option Z :=
  option_map (fun ms => (ms / ms_per_day)%Z) t.

(* ================================================================== *)
(** ** models/QueryResult.js *)

Definition js_of_text (x : option string) : jsval :=
  match x with Some s => JStr s | None => JNull end.
Definition js_of_timestamp (x : option Z) : jsval :=
  match x with Some ms => JDate ms | None => JNull end.

(** The value of a column of the table, by name. *)
Definition column (r : Row.t) (name : string) : jsval :=
  if name =? "id" then JNum (Row.id r)
  else if name =? "keyword" then js_of_text (Row.keyword r)
  else if name =? "platform_name" then js_of_text (Row.platform_name r)
  else if name =? "search_type" then js_of_text (Row.search_type r)
  else if name =? "created_at" then js_of_timestamp (Row.created_at r)
  else JUndefined.

(** The attributes [sequelize.define('SearchQuery', ...)] declares. *)
Definition SearchQuery_rawAttributes : list string :=
  ["id"; "keyword"; "search_type"; "created_at"].

(** A model instance holds the values of the attributes that were
    selected. *)
Definition build_instance (attributes : list string) (r : Row.t)
  : list (string * jsval) :=
  map (fun a => (a, column r a)) attributes.

(** A [findAll] without [attributes] and without [raw] selects the declared
    attributes and builds an instance from them. *)
Definition SearchQuery_build (r : Row.t) : list (string * jsval) :=
  build_instance SearchQuery_rawAttributes r.

(** [r.name] on a model instance. *)
Definition instance_get (r : list (string * jsval)) (name : string) : jsval :=
  match assoc name r with Some v => v | None => JUndefined end.

(** [SearchQuery.count()]. *)
Definition SearchQuery_count : M nat :=
  read (fun w => List.length (search_queries w)).

(** [findAll] grouped by [search_type], raw.  The query has no
    [ORDER BY]: the groups come in the order the engine chooses, here the
    order of the list. *)
Definition SearchQuery_by_search_type : M (list (option string * nat)) :=
  read (fun w => group_count (option_eqb String.eqb) Row.search_type (search_queries w)).

(** [findAll] grouped by [platform_name] where it is not NULL, raw: the
    column is named in the query, so it is read from the table although the
    model does not declare it.  The groups come in the order the engine
    chooses, as above. *)
Definition SearchQuery_by_platform_name : M (list (option string * nat)) :=
  read (fun w =>
          group_count (option_eqb String.eqb) Row.platform_name
            (filter (fun r => negb (option_eqb String.eqb (Row.platform_name r) None))
                    (search_queries w))).

(** [findAll] grouped by [DATE(created_at)], ordered by it ascending, raw. *)
Definition SearchQuery_by_date : M (list (option Z * nat)) :=
  read (fun w =>
          order_by (fun g1 g2 => null_last_leb (fst g1) (fst g2))
            (group_count (option_eqb Z.eqb) (fun r => sql_DATE (Row.created_at r))
                         (search_queries w))).

(** [findAll] of [MIN(created_at)] and [MAX(created_at)], raw: one row. *)
Definition SearchQuery_min_max : M (list (option Z * option Z)) :=
  read (fun w => let col := map Row.created_at (search_queries w) in
                 [(sql_MIN col, sql_MAX col)]).

(** [findAll({ order: [['created_at', 'DESC']], limit: 10 })].  Rows with
    the same [created_at] come in the order the engine chooses, here the
    order of the list: which of them fall under the limit is its choice
    too. *)
Definition SearchQuery_recent : M (list (list (string * jsval))) :=
  read (fun w =>
          map SearchQuery_build
            (firstn 10
               (order_by (fun r1 r2 => null_last_leb (Row.created_at r2) (Row.created_at r1))
                         (search_queries w)))).

(* ================================================================== *)
(** ** Plain objects used as maps

    Properties in insertion order; assigning to a name that is there
    replaces its value in place.  (JavaScript enumerates names that are
    array indices first; where the order of the properties matters below,
    the names are not array indices.) *)

Section PlainObject.
Variables (K V : Type).
Variable K_eqb : K -> K -> bool.

Fixpoint obj_set (obj : list (K * V)) (k : K) (v : V) : list (K * V) :=
  match obj with
  | [] => [(k, v)]
  | (k', v') :: obj' =>
      if K_eqb k k' then (k', v) :: obj' else (k', v') :: obj_set obj' k v
  end.

Fixpoint obj_get (obj : list (K * V)) (k : K) : option V :=
  match obj with
  | [] => None
  | (k', v') :: obj' => if K_eqb k k' then Some v' else obj_get obj' k
  end.
End PlainObject.

(** [obj[k] = v] on an object literal, for a text [k] and a number [v].
    [__proto__] names the accessor inherited from [Object.prototype], whose
    setter ignores a value that is neither an object nor [null]: the
    assignment creates no property.  Every other inherited name is a
    writable data property, which the assignment shadows by a property of
    the object itself. *)
Definition obj_assign {V : Type} (obj : list (string * V)) (k : string) (v : V)
  : list (string * V) :=
  if k =? "__proto__" then obj else obj_set String.eqb obj k v.

(** [xs.forEach(body)] where [body] updates [acc]. *)
Definition forEach {A S : Type} (xs : list A) (body : S -> A -> S) (acc : S) : S :=
  fold_left body xs acc.

(** [x || d] for a nullable text column [x] and a non-empty string [d]. *)
Definition text_or (x : option string) (d : string) : string :=
  match x with
  | Some s => if s =? "" then d else s
  | None => d
  end.

(* ================================================================== *)
(** ** server.js: GET /api/stats *)

Module RecentQuery.
Record t : Type := make {
  id : jsval;
  keyword : jsval;
  search_type : jsval;
  platform_name : jsval;
  created_at : jsval
}.
End RecentQuery.

Record DateRange : Type := mkDateRange { earliest : jsval; latest : jsval }.

(** The [data] object of the response.  The property names of
    [timelineData] are the texts of the dates (of [null] for the group of
    rows without [created_at]), kept here as the day numbers. *)
Record Snapshot : Type := mkSnapshot {
  total : nat;
  searchTypeBreakdown : list (string * nat);
  timelineData : list (option Z * nat);
  platformBreakdown : list (string * nat);
  recentQueries : list RecentQuery.t;
  dateRange : DateRange
}.

(** The handler up to [res.json]: the six results.  A count is a number
    here; the driver hands it over as decimal text and [parseInt] reads it
    back. *)
Definition computeSnapshot : M Snapshot :=
  total <- SearchQuery_count ;;
  searchTypeResults <- SearchQuery_by_search_type ;;
  let searchTypeBreakdown :=
    forEach searchTypeResults
      (fun obj row => let type := text_or (fst row) "Unknown" in
                      obj_assign obj type (snd row)) [] in
  platformResults <- SearchQuery_by_platform_name ;;
  let platformBreakdown :=
    forEach platformResults
      (fun obj row => let platform := text_or (fst row) "Unknown" in
                      obj_assign obj platform (snd row)) [] in
  timelineResults <- SearchQuery_by_date ;;
  let timelineData :=
    forEach timelineResults
      (fun obj row => obj_set (option_eqb Z.eqb) obj (fst row) (snd row)) [] in
  dateRange <- SearchQuery_min_max ;;
  let range :=
    match dateRange with
    | row :: _ => mkDateRange (js_of_timestamp (fst row)) (js_of_timestamp (snd row))
    | [] => mkDateRange JUndefined JUndefined
    end in
  recentRecords <- SearchQuery_recent ;;
  let recentQueries :=
    map (fun r => RecentQuery.make (instance_get r "id")
                                   (instance_get r "keyword")
                                   (instance_get r "search_type")
                                   (instance_get r "platform_name")
                                   (instance_get r "created_at"))
        recentRecords in
  ret (mkSnapshot total searchTypeBreakdown timelineData platformBreakdown
                  recentQueries range).

Definition stats_handler (req : Request) (res : Response Snapshot)
  : M (Response Snapshot) :=
  data <- computeSnapshot ;;
  timestamp <- read clock ;;
  ret (res_json res (BodyStats true data timestamp)).

(** [app.get('/api/stats', requireAuth, asyncHandler(...))]. *)
Definition api_stats (req : Request) (res : Response Snapshot)
  : M (Response Snapshot) :=
  requireAuth req res (stats_handler req).


(* ================================================================== *)
(** ** Vocabulary of the specification *)

(** What the specification asks of the hashing primitive: a hash verifies
    against exactly the password it was made from, whatever the salt. *)
Definition Argon2Sound (argon2 : Argon2) : Prop :=
  forall salt p p', argon2_verify (argon2_hash salt p) p' = Normal (p =? p').

(** The value found by following [path] through own properties. *)
Fixpoint lookup_path (v : jsval) (path : list string) : option jsval :=
  match path with
  | [] => Some v
  | k :: path' =>
      match v with
      | JObj props =>
          match assoc k props with
          | Some x => lookup_path x path'
          | None => None
          end
      | _ => None
      end
  end.

(** The recognized authentication markers: [adminUser], [adminjs] and
    [passport.user]. *)
Definition marker_paths : list (list string) :=
  [["adminUser"]; ["adminjs"]; ["passport"; "user"]].

(** The session carries a marker: one of the paths leads to a value that
    counts as set. *)
Definition carries_marker (s : jsval) : Prop :=
  exists path v,
    In path marker_paths /\ lookup_path s path = Some v /\ truthy v = true.

(** The rows created on day [d]. *)
Definition created_on (d : Z) (r : Row.t) : bool :=
  match Row.created_at r with
  | Some ms => (ms / ms_per_day =? d)%Z
  | None => false
  end.

Definition has_search_type (x : option string) (r : Row.t) : bool :=
  option_eqb String.eqb x (Row.search_type r).


(** [r1] may precede [r2] in descending order of [created_at], NULL
    first. *)
Definition created_at_desc (r1 r2 : Row.t) : Prop :=
  null_last_leb (Row.created_at r2) (Row.created_at r1) = true.

(* ================================================================== *)
(** ** Concrete worlds *)

Definition store_of (rows : list Row.t) : World := mkWorld [] [] rows 0 [].

Definition with_env (env : list (string * string)) (w : World) : World :=
  mkWorld env (adminUsers w) (search_queries w) (clock w) (log w).

Definition credentials (e p : string) : list (string * string) :=
  [("ADMIN_EMAIL", e); ("ADMIN_PASSWORD", p)].

(** A stand-in for the primitive that satisfies [Argon2Sound]: enough to
    run the gate on concrete credentials. *)
Definition plain_argon2 : Argon2 :=
  {| argon2_hash := fun _ p => p;
     argon2_verify := fun h p => Normal (h =? p) |}.

(** A primitive whose [verify] always rejects. *)
Definition broken_argon2 : Argon2 :=
  {| argon2_hash := fun _ p => p;
     argon2_verify := fun _ _ => Throw (Error "pchstr must contain a $ as first char") |}.

Definition day (n : Z) : Z := (n * ms_per_day)%Z.

(** The scenario of the specification; 2024-01-01 is day 19723. *)
Definition scenario : list Row.t :=
  [ Row.make 1 None (Some "web") (Some "job") (Some (day 19723));
    Row.make 2 None None (Some "job") (Some (day 19724 + 5)%Z);
    Row.make 3 None (Some "mobile") None (Some (day 19724 + 7)%Z) ].

(** The process after [initialize(e1, p1)] followed by
    [initialize(e2, p2)], starting with no identity. *)
Definition reinitialized {argon2 : Argon2} (salt1 salt2 e1 p1 e2 p2 : string) : World :=
  let w1 := snd (initializeAdminUser salt1 (with_env (credentials e1 p1) (store_of []))) in
  snd (initializeAdminUser salt2 (with_env (credentials e2 p2) w1)).

(** The same e-mail initialized twice, first with the password [first],
    then with [second]. *)
Definition same_email_twice : World :=
  reinitialized (argon2 := plain_argon2) "salt1" "salt2"
                "admin@example.com" "first" "admin@example.com" "second".

(** A stored record that has a platform name. *)
Definition web_row : Row.t :=
  Row.make 1 (Some "shoes") (Some "web") (Some "job") (Some (day 19723)).

(** One record without search type and one whose search type is the empty
    string. *)
Definition absent_and_empty_type : list Row.t :=
  [ Row.make 1 (Some "a") (Some "web") None (Some (day 19723));
    Row.make 2 (Some "b") (Some "web") (Some "") (Some (day 19723)) ].


(** One record without search type and two whose search type is the
    empty string. *)
Definition absent_and_two_empty : list Row.t :=
  [ Row.make 1 (Some "a") (Some "web") None (Some (day 19723));
    Row.make 2 (Some "b") (Some "web") (Some "") (Some (day 19724));
    Row.make 3 (Some "c") (Some "web") (Some "") (Some (day 19725)) ].

(** One record whose platform name is the empty string and one on a
    platform called Unknown. *)
Definition empty_and_Unknown_platform : list Row.t :=
  [ Row.make 1 (Some "a") (Some "") (Some "job") (Some (day 19723));
    Row.make 2 (Some "b") (Some "Unknown") (Some "job") (Some (day 19723)) ].

From Stdlib Require Import Ascii.

(* ================================================================== *)
(** ** Further vocabulary *)

(** [process.env.NAME] is set to a non-empty string. *)
Definition env_nonempty (w : World) (name : string) : bool :=
  match assoc name (process_env w) with
  | Some s => negb (s =? "")
  | None => false
  end.

(** The start-up call run once for each of the credentials, in order, each
    with its own salt: [(salt, email, password)]. *)
Definition initialize_all {argon2 : Argon2}
           (ids : list (string * string * string)) (w : World) : World :=
  fold_left
    (fun w id =>
       snd (initializeAdminUser (fst (fst id))
              (with_env (credentials (snd (fst id)) (snd id)) w)))
    ids w.

(** The sum of the values of an object of counts. *)
Definition sum_counts {K : Type} (obj : list (K * nat)) : nat :=
  list_sum (map snd obj).

(** The label under which the handler files a search type or a platform
    name. *)
Definition label_of (x : option string) : string := text_or x "Unknown".

(** A record whose search type is the text [__proto__], beside an
    ordinary one. *)
Definition proto_type : list Row.t :=
  [ Row.make 1 (Some "a") (Some "web") (Some "__proto__") (Some (day 19723));
    Row.make 2 (Some "b") (Some "web") (Some "job") (Some (day 19724)) ].

(** The records labelled [k] all have the same search type: one group
    only is written under [k]. *)
Definition one_search_type (k : string) (rows : list Row.t) : Prop :=
  forall r r',
    In r rows -> In r' rows ->
    label_of (Row.search_type r) = k -> label_of (Row.search_type r') = k ->
    Row.search_type r = Row.search_type r'.

(** The same for the platform names of the records that have one. *)
Definition one_platform_name (k : string) (rows : list Row.t) : Prop :=
  forall r r',
    In r rows -> In r' rows ->
    Row.platform_name r <> None -> Row.platform_name r' <> None ->
    label_of (Row.platform_name r) = k -> label_of (Row.platform_name r') = k ->
    Row.platform_name r = Row.platform_name r'.

(** Two records created at the same instant. *)
Definition tied_rows : list Row.t :=
  [ Row.make 1 (Some "a") (Some "web") (Some "job") (Some (day 19723));
    Row.make 2 (Some "b") (Some "mobile") (Some "company") (Some (day 19723)) ].

(* ================================================================== *)
(** ** middleware/error-handler.js *)

(** What the handlers read off the error they are given: the values of
    [err.status], [err.statusCode], [err.message], [err.stack],
    [err.details], [err.name], [err.original], [err.parent] and
    [err.sql]. *)
Record ErrorView : Type := mkErrorView {
  err_status : jsval;
  err_statusCode : jsval;
  err_message : jsval;
  err_stack : jsval;
  err_details : jsval;
  err_name : jsval;
  err_original : jsval;
  err_parent : jsval;
  err_sql : jsval
}.

(** What they read off the request. *)
Record RequestInfo : Type := mkRequestInfo {
  originalUrl : string;
  method : jsval;
  ip : jsval
}.

(** [res.status(code).json(body)]. *)
Record JsonResponse : Type := mkJsonResponse {
  json_status : jsval;
  json_body : jsval
}.

(** [v === s] for a string [s]; [v === n] for a number [n]. *)
Definition is_string (v : jsval) (s : string) : bool :=
  match v with JStr s' => s' =? s | _ => false end.
Definition is_number (v : jsval) (n : Z) : bool :=
  match v with JNum n' => (n' =? n)%Z | _ => false end.

(** [v?.k] on a value. *)
Definition get_opt (v : jsval) (k : string) : jsval :=
  match get_prop v k with Normal x => x | Throw _ => JUndefined end.

(** [new Error(message)] with [error.status = status], as the handlers see
    it; [stack] is the trace the engine attaches. *)
Definition new_Error_with_status (message stack : string) (status : Z) : ErrorView :=
  mkErrorView (JNum status) JUndefined (JStr message) (JStr stack) JUndefined
              (JStr "Error") JUndefined JUndefined JUndefined.

Definition notFoundHandler {A : Type} (stack : string) (req : RequestInfo)
           (next : ErrorView -> M A) : M A :=
  let error := new_Error_with_status ("Not Found - " ++ originalUrl req) stack 404 in
  next error.

(** The first [errorHandler] of the file.  The object given to
    [logger.error] is returned with the response. *)
Definition errorHandler (err : ErrorView) (req : RequestInfo)
  : M (jsval * JsonResponse) :=
  let statusCode := js_or (js_or (err_status err) (err_statusCode err)) (JNum 500) in
  let message := js_or (err_message err) (JStr "Internal Server Error") in
  let logged :=
    JObj [("message", err_message err); ("stack", err_stack err);
          ("url", JStr (originalUrl req)); ("method", method req);
          ("ip", ip req); ("statusCode", statusCode)] in
  NODE_ENV <- env_var "NODE_ENV" ;;
  let isProduction := is_string NODE_ENV "production" in
  ret (logged,
       mkJsonResponse statusCode
         (JObj [("error",
                 JObj ([("message",
                         if isProduction && is_number statusCode 500
                         then JStr "Internal Server Error" else message);
                        ("status", statusCode)]
                       ++ (if isProduction then []
                           else [("stack", err_stack err);
                                 ("details", err_details err)])))])).

(** The second [errorHandler] of the file, which adds the details of the
    database error. *)
Definition errorHandler_db (err : ErrorView) (req : RequestInfo)
  : M (jsval * JsonResponse) :=
  let statusCode := js_or (js_or (err_status err) (err_statusCode err)) (JNum 500) in
  let message := js_or (err_message err) (JStr "Internal Server Error") in
  let dbError := js_or (err_original err) (err_parent err) in
  let logged :=
    JObj ([("name", err_name err); ("message", err_message err);
           ("stack", err_stack err)]
          ++ (if truthy dbError
              then [("dbMessage", get_opt dbError "message");
                    ("dbCode", get_opt dbError "code");
                    ("dbDetail", get_opt dbError "detail");
                    ("dbHint", get_opt dbError "hint");
                    ("sql", err_sql err)]
              else [])
          ++ [("url", JStr (originalUrl req)); ("method", method req);
              ("ip", ip req); ("statusCode", statusCode)]) in
  NODE_ENV <- env_var "NODE_ENV" ;;
  let isProduction := is_string NODE_ENV "production" in
  ret (logged,
       mkJsonResponse statusCode
         (JObj [("error",
                 JObj ([("message",
                         if isProduction && is_number statusCode 500
                         then JStr "Internal Server Error" else message);
                        ("status", statusCode)]
                       ++ (if isProduction then []
                           else [("stack", err_stack err);
                                 ("details", err_details err)]
                                ++ (if truthy dbError
                                    then [("dbMessage", get_opt dbError "message");
                                          ("dbCode", get_opt dbError "code");
                                          ("dbDetail", get_opt dbError "detail");
                                          ("dbHint", get_opt dbError "hint")]
                                    else []))))])).

(** A request that no route took: [notFoundHandler], then the error
    handler. *)
Definition not_found_route (stack : string) (req : RequestInfo)
  : M (jsval * JsonResponse) :=
  notFoundHandler stack req (fun err => errorHandler err req).

(** The properties of the [error] object of a response body. *)
Definition error_of_body (b : jsval) : jsval := get_opt b "error".

Definition own_keys (v : jsval) : list string :=
  match v with JObj props => map fst props | _ => [] end.

(* ================================================================== *)
(** ** middleware/security.js: the CORS origin check *)

(** [s.split(',')]: the pieces between the commas, empty pieces kept; the
    empty string gives one empty piece. *)
Fixpoint split_comma (s : string) : list string :=
  match s with
  | EmptyString => [""]
  | String c s' =>
      if Ascii.eqb c ","%char then "" :: split_comma s'
      else match split_comma s' with
           | piece :: pieces => String c piece :: pieces
           | [] => [String c ""]
           end
  end.

(** [process.env.ALLOWED_ORIGINS?.split(',') || ['http://localhost:3000']]:
    an array is truthy, so the default applies only when the variable is
    not set. *)
Definition allowedOrigins : M (list string) :=
  ALLOWED_ORIGINS <- env_var "ALLOWED_ORIGINS" ;;
  match ALLOWED_ORIGINS with
  | JStr s => ret (split_comma s)
  | _ => ret ["http://localhost:3000"]
  end.

(** The [origin] callback of [configureCors]: [callback(null, true)] is
    [Normal true], [callback(new Error(...))] is the exception.  [origin]
    is the request header, if any. *)
Definition cors_origin (allowed : list string) (origin : option string)
  : completion bool :=
  match origin with
  | None => Normal true
  | Some o =>
      if o =? "" then Normal true
      else if existsb (String.eqb o) allowed then Normal true
      else Throw (Error "Not allowed by CORS")
  end.

(** [configureCors()] followed by a request with the given origin. *)
Definition configureCors_check (origin : option string) : M bool :=
  allowed <- allowedOrigins ;;
  lift (cors_origin allowed origin).

Fixpoint comma_free (s : string) : bool :=
  match s with
  | EmptyString => true
  | String c s' => negb (Ascii.eqb c ","%char) && comma_free s'
  end.

(* ================================================================== *)
(** ** server.js: the redirect to HTTPS *)

Record WireRequest : Type := mkWireRequest {
  x_forwarded_proto : option string;   (* req.headers['x-forwarded-proto'] *)
  encrypted : bool;                    (* req.connection?.encrypted, as a condition *)
  protocol : string;                   (* req.protocol *)
  host : option string;                (* req.headers.host *)
  wire_url : string                    (* req.originalUrl *)
}.

Inductive Gate : Type :=
| Passed                                   (* next() *)
| Answered (status : Z) (text : string)    (* res.status(..).send(..) *)
| Redirected (target : string).            (* res.redirect(..) *)

(** A header that is there and not empty. *)
Definition header_truthy (h : option string) : bool :=
  match h with Some s => negb (s =? "") | None => false end.

Definition header_text (h : option string) : string :=
  match h with Some s => s | None => "undefined" end.

(** The middleware installed when [enforceHttps] holds. *)
Definition enforce_https (req : WireRequest) : Gate :=
  let proto :=
    if header_truthy (x_forwarded_proto req) then header_text (x_forwarded_proto req)
    else if encrypted req then "https" else protocol req in
  if proto =? "https" then Passed
  else if negb (header_truthy (host req)) then Answered 400 "Host header is required"
  else Redirected ("https://" ++ header_text (host req) ++ wire_url req).

(** [enforceHttps = Boolean(forceHttpsRedirect && httpsEnabled)]; without
    it the middleware is not installed and every request goes on. *)
Definition https_gate (forceHttpsRedirect httpsEnabled : bool) (req : WireRequest)
  : Gate :=
  let enforceHttps := forceHttpsRedirect && httpsEnabled in
  if enforceHttps then enforce_https req else Passed.

(* ================================================================== *)
(** ** database.js and routes/health.js *)

(** What the database answers: to [sequelize.authenticate()] and to the
    version query of the [n]-th attempt of [testConnection], and to the
    [sequelize.authenticate()] of a health check. *)
Class Sequelize : Type := {
  connect : Z -> completion unit;
  version_query : Z -> completion jsval;
  probe : completion unit
}.

Inductive DbLog : Type :=
| ConnectionEstablished
| DatabaseVersion (version : jsval)
| AttemptFailed (attempt retries : Z) (message : string)
| RetryingIn (delay : Z)
| UnableToConnect.

(** The log of the module and the time spent in [setTimeout]. *)
Record DbState : Type := mkDbState {
  db_log : list DbLog;
  waited : Z
}.

Definition exn_message (e : exn) : string :=
  match e with TypeError msg => msg | Error msg => msg end.

Definition db_logger (entry : DbLog) (st : DbState) : DbState :=
  mkDbState (db_log st ++ [entry]) (waited st).

Definition db_sleep (delay : Z) (st : DbState) : DbState :=
  mkDbState (db_log st) (waited st + delay)%Z.

Section Database.
Context {sequelize : Sequelize}.

(** The [try] block of one attempt: the error it throws, if any, and the
    log it leaves. *)
Definition attempt_try (attempt : Z) (st : DbState) : completion unit * DbState :=
  match connect attempt with
  | Throw error => (Throw error, st)
  | Normal _ =>
      let st1 := db_logger ConnectionEstablished st in
      match version_query attempt with
      | Throw error => (Throw error, st1)
      | Normal dbInfo =>
          match get_prop dbInfo "version" with
          | Throw error => (Throw error, st1)
          | Normal version => (Normal tt, db_logger (DatabaseVersion version) st1)
          end
      end
  end.

(** The loop of [testConnection]; [fuel] bounds the number of iterations
    and [testConnection] gives it as many as the loop can make. *)
Fixpoint testConnection_loop (fuel : nat) (attempt retries delay : Z) (st : DbState)
  : completion jsval * DbState :=
  match fuel with
  | O => (Normal JUndefined, st)
  | S fuel' =>
      if (attempt <=? retries)%Z then
        match attempt_try attempt st with
        | (Normal _, st1) => (Normal (JBool true), st1)
        | (Throw error, st1) =>
            let st2 := db_logger (AttemptFailed attempt retries (exn_message error)) st1 in
            if (attempt <? retries)%Z then
              let st3 := db_sleep delay (db_logger (RetryingIn delay) st2) in
              testConnection_loop fuel' (attempt + 1)%Z retries delay st3
            else
              (Throw error, db_logger UnableToConnect st2)
        end
      else (Normal JUndefined, st)
  end.

Definition testConnection (retries delay : Z) (st : DbState)
  : completion jsval * DbState :=
  testConnection_loop (S (Z.to_nat retries)) 1 retries delay st.

(** [healthCheck()]: an object with [status] and [message]. *)
Definition healthCheck : jsval :=
  match probe with
  | Normal _ =>
      JObj [("status", JStr "healthy");
            ("message", JStr "Database connection is active")]
  | Throw error =>
      JObj [("status", JStr "unhealthy"); ("message", JStr (exn_message error))]
  end.

(** The readings of [process] that the health route takes: the uptime in
    whole milliseconds, the heap sizes in bytes, the version of Node. *)
Record ProcessInfo : Type := mkProcessInfo {
  uptime_ms : Z;
  heapUsed : Z;
  heapTotal : Z;
  node_version : string
}.

(** [Math.round(bytes / 1024 / 1024)]. *)
Definition megabytes (bytes : Z) : Z := ((2 * bytes + 1048576) / 2097152)%Z.

(** [router.get('/health', ...)]. *)
Definition health_route (proc : ProcessInfo) : M JsonResponse :=
  try_catch
    (let dbHealth := healthCheck in
     let uptime_s := (uptime_ms proc / 1000)%Z in
     now <- read clock ;;
     NODE_ENV <- env_var "NODE_ENV" ;;
     let status :=
       if is_string (get_opt dbHealth "status") "healthy" then "ok" else "degraded" in
     let health :=
       JObj [("status", JStr status);
             ("timestamp", JDate now);
             ("uptime", JNum uptime_s);
             ("environment", js_or NODE_ENV (JStr "development"));
             ("nodeVersion", JStr (node_version proc));
             ("database", dbHealth);
             ("memory", JObj [("used", JNum (megabytes (heapUsed proc)));
                              ("total", JNum (megabytes (heapTotal proc)));
                              ("unit", JStr "MB")])] in
     let statusCode := if status =? "ok" then 200%Z else 503%Z in
     ret (mkJsonResponse (JNum statusCode) health))
    (fun error =>
       ret (mkJsonResponse (JNum 503)
              (JObj [("status", JStr "error");
                     ("message", JStr "Health check failed");
                     ("error", JStr (exn_message error))]))).

(** [router.get('/ready', ...)]. *)
Definition ready_route : M JsonResponse :=
  try_catch
    (let dbHealth := healthCheck in
     if is_string (get_opt dbHealth "status") "healthy" then
       ret (mkJsonResponse (JNum 200) (JObj [("ready", JBool true)]))
     else
       ret (mkJsonResponse (JNum 503)
              (JObj [("ready", JBool false);
                     ("reason", get_opt dbHealth "message")])))
    (fun error =>
       ret (mkJsonResponse (JNum 503)
              (JObj [("ready", JBool false);
                     ("reason", JStr (exn_message error))]))).

(** [router.get('/live', ...)]. *)
Definition live_route : M JsonResponse :=
  ret (mkJsonResponse (JNum 200) (JObj [("alive", JBool true)])).
End Database.

(** How the [n]-th attempt of [testConnection] ends: normally, or with the
    error thrown by the connection, by the version query or by reading the
    version off its result. *)
Definition attempt_outcome {sequelize : Sequelize} (attempt : Z) : completion unit :=
  fst (attempt_try attempt (mkDbState [] 0)).

(** A database that refuses the first two attempts, and one that refuses
    them all. *)
Definition flaky_database : Sequelize :=
  {| connect := fun n => if (n <? 3)%Z then Throw (Error "connect ECONNREFUSED")
                         else Normal tt;
     version_query := fun _ => Normal (JObj [("version", JStr "PostgreSQL 15.4")]);
     probe := Throw (Error "connect ECONNREFUSED") |}.

Definition dead_database : Sequelize :=
  {| connect := fun _ => Throw (Error "connect ECONNREFUSED");
     version_query := fun _ => Normal JNull;
     probe := Throw (Error "connect ECONNREFUSED") |}.

(* ================================================================== *)
(** ** Sanity checks on concrete runs *)

Example scenario_snapshot :
  exists s, computeSnapshot (store_of scenario) = (Normal s, store_of scenario)
    /\ total s = 3
    /\ searchTypeBreakdown s = [("job", 2); ("Unknown", 1)]
    /\ platformBreakdown s = [("web", 1); ("mobile", 1)]
    /\ timelineData s = [(Some 19723%Z, 1); (Some 19724%Z, 2)]
    /\ dateRange s = mkDateRange (JDate (day 19723)) (JDate (day 19724 + 7)%Z)
    /\ map RecentQuery.id (recentQueries s) = [JNum 3; JNum 2; JNum 1].
Proof. eexists. split; [ cbv; reflexivity | repeat split ]. Qed.

(** A search type called [__proto__] leaves no key: the assignment goes
    to the inherited accessor. *)
Example proto_type_snapshot :
  exists s, computeSnapshot (store_of proto_type) = (Normal s, store_of proto_type)
    /\ total s = 2
    /\ searchTypeBreakdown s = [("job", 1)].
Proof. eexists. split; [ cbv; reflexivity | repeat split ]. Qed.

(** Reading a property of [null] throws, with the message of Node.js. *)
Example get_prop_of_null :
  get_prop JNull "version"
  = Throw (TypeError "Cannot read properties of null (reading 'version')").
Proof. reflexivity. Qed.

(** The route without a session, and with the session AdminJS leaves. *)
Example api_stats_unauthorized :
  fst (api_stats (mkRequest JUndefined) (mkResponse 200 None None) (store_of scenario))
  = Normal (mkResponse 401 None (Some (BodyError "Unauthorized"))).
Proof. reflexivity. Qed.

Example api_stats_authorized :
  exists data,
    fst (api_stats (mkRequest (JObj [("cookie", JObj []);
                                     ("adminUser", JObj [("email", JStr "admin@example.com")])]))
                   (mkResponse 200 None None) (store_of scenario))
    = Normal (mkResponse 200 None (Some (BodyStats true data 0)))
    /\ total data = 3.
Proof. eexists. split; [cbv; reflexivity | reflexivity]. Qed.

(** A session whose marker is there but not set does not pass. *)
Example adminUser_null_not_authenticated :
  fst (checkAuth (mkRequest (JObj [("adminUser", JNull); ("passport", JObj [])]))
                 (store_of []))
  = Normal false.
Proof. reflexivity. Qed.

(** A rejecting [verify] is logged and answered with [null]. *)
Example authenticate_verify_rejects :
  authenticate (argon2 := broken_argon2) "admin@example.com" "secret"
    (mkWorld [] [AdminUser.make "admin@example.com" "not-a-hash" "admin"] [] 0 [])
  = (Normal None,
     mkWorld [] [AdminUser.make "admin@example.com" "not-a-hash" "admin"] [] 0
             [LogErrorWith "Error during authentication:"
                           (Error "pchstr must contain a $ as first char")]).
Proof. reflexivity. Qed.

(** Without credentials in the environment the start-up call throws. *)
Example initializeAdminUser_unconfigured :
  fst (initializeAdminUser (argon2 := plain_argon2) "salt"
         (with_env [("ADMIN_EMAIL", "admin@example.com")] (store_of [])))
  = Throw (Error "Admin credentials not configured").
Proof. reflexivity. Qed.

(* ================================================================== *)
(** ** The session check *)

Section SessionCheck.

Lemma truthy_get_prop_object :
  forall v k x, get_prop v k = Normal x -> truthy x = true ->
                exists props, v = JObj props /\ assoc k props = Some x.
Proof.
  intros v k x H T.
  destruct v; simpl in H; try (inversion H; subst; discriminate).
  destruct (assoc k props) as [y|] eqn:E.
  - inversion H; subst. exists props. split; [reflexivity | exact E].
  - inversion H; subst. discriminate.
Qed.

Lemma get_prop_truthy_total :
  forall v k, truthy v = true -> exists x, get_prop v k = Normal x.
Proof.
  intros v k T. destruct v; simpl in *; try discriminate; eauto.
  destruct (assoc k props); eauto.
Qed.

Lemma Object_keys_truthy_total :
  forall v, truthy v = true -> exists ks, Object_keys v = Normal ks.
Proof.
  intros v T. destruct v; simpl in *; try discriminate; eauto.
Qed.

(** The value the three-way disjunction of [checkAuth] evaluates to. *)
Lemma checkAuth_runs :
  forall s w, truthy s = true ->
    exists a j p u ks,
      get_prop s "adminUser" = Normal a /\
      get_prop s "adminjs" = Normal j /\
      get_prop s "passport" = Normal p /\
      (truthy p = true -> get_prop p "user" = Normal u) /\
      Object_keys s = Normal ks /\
      let marker := js_or a (js_or j (if truthy p then u else p)) in
      checkAuth (mkRequest s) w =
        (Normal (truthy marker),
         mkWorld (process_env w) (adminUsers w) (search_queries w) (clock w)
                 (log w ++ [LogAuthCheck ks (truthy marker)])).
Proof.
  intros s w T.
  destruct (get_prop_truthy_total s "adminUser" T) as [a Ha].
  destruct (get_prop_truthy_total s "adminjs" T) as [j Hj].
  destruct (get_prop_truthy_total s "passport" T) as [p Hp].
  destruct (Object_keys_truthy_total s T) as [ks Hks].
  assert (Hu : exists u, truthy p = true -> get_prop p "user" = Normal u).
  { destruct (truthy p) eqn:Tp.
    - destruct (get_prop_truthy_total p "user" Tp) as [u Hu]. eauto.
    - exists JUndefined. discriminate. }
  destruct Hu as [u Hu].
  exists a, j, p, u, ks. repeat (split; [assumption|]).
  unfold checkAuth, bind, lift, ret, logger, js_or. cbn [session].
  rewrite T. simpl negb. cbv iota. rewrite Ha.
  destruct (truthy a) eqn:Ta.
  - rewrite Hks. rewrite Ta. reflexivity.
  - rewrite Hj. destruct (truthy j) eqn:Tj.
    + rewrite Hks. rewrite Tj. reflexivity.
    + rewrite Hp. destruct (truthy p) eqn:Tp.
      * rewrite (Hu eq_refl). rewrite Hks. reflexivity.
      * rewrite Hks. rewrite Tp. reflexivity.
Qed.

Lemma checkAuth_no_session :
  forall s w, truthy s = false ->
    checkAuth (mkRequest s) w =
      (Normal false,
       mkWorld (process_env w) (adminUsers w) (search_queries w) (clock w)
               (log w ++ [LogInfo "Auth check - no session found"])).
Proof.
  intros s w T. unfold checkAuth, bind, ret, logger. cbn [session].
  rewrite T. reflexivity.
Qed.

(** [checkAuth] returns a boolean on every request: nothing is thrown. *)
Lemma checkAuth_total :
  forall req w, exists b w', checkAuth req w = (Normal b, w').
Proof.
  intros [s] w. destruct (truthy s) eqn:T.
  - destruct (checkAuth_runs s w T) as (a & j & p & u & ks & _ & _ & _ & _ & _ & H).
    eauto.
  - rewrite (checkAuth_no_session s w T). eauto.
Qed.

Lemma carries_marker_object :
  forall s, carries_marker s -> exists props, s = JObj props.
Proof.
  intros s (path & v & Hin & Hl & _).
  destruct s; eauto;
    simpl in Hin; destruct Hin as [<-|[<-|[<-|[]]]]; discriminate.
Qed.

Lemma checkAuth_true_iff_marker :
  forall s w b w', checkAuth (mkRequest s) w = (Normal b, w') ->
                   (b = true <-> carries_marker s).
Proof.
  intros s w b w' H. destruct (truthy s) eqn:T.
  - destruct (checkAuth_runs s w T)
      as (a & j & p & u & ks & Ha & Hj & Hp & Hu & _ & E).
    simpl in E. rewrite E in H. inversion H; subst b; clear H E.
    unfold js_or. split.
    + intros Hm. destruct (truthy a) eqn:Ta.
      * destruct (truthy_get_prop_object _ _ Ha Ta) as (props & -> & Ea).
        exists ["adminUser"], a. simpl. rewrite Ea. auto.
      * destruct (truthy j) eqn:Tj.
        { destruct (truthy_get_prop_object _ _ Hj Tj) as (props & -> & Ej).
          exists ["adminjs"], j. simpl. rewrite Ej. auto. }
        destruct (truthy p) eqn:Tp; [|congruence].
        destruct (truthy_get_prop_object _ _ Hp Tp) as (props & -> & Ep).
        destruct (truthy_get_prop_object _ _ (Hu eq_refl) Hm) as (pp & -> & Eu).
        exists ["passport"; "user"], u. simpl. rewrite Ep. rewrite Eu. auto.
    + intros (path & v & Hin & Hl & Tv).
      simpl in Hin. destruct Hin as [<-|[<-|[<-|[]]]]; simpl in Hl.
      * destruct s; try discriminate. simpl in Ha.
        destruct (assoc "adminUser" props); try discriminate.
        inversion Hl; subst. inversion Ha; subst. rewrite Tv. exact Tv.
      * destruct s; try discriminate. simpl in Hj.
        destruct (assoc "adminjs" props); try discriminate.
        inversion Hl; subst. inversion Hj; subst. rewrite Tv.
        destruct (truthy a) eqn:Ta; [exact Ta | exact Tv].
      * destruct s; try discriminate. simpl in Hp.
        destruct (assoc "passport" props) as [q|]; try discriminate.
        inversion Hp; subst p. destruct q; try discriminate.
        simpl in Hu. simpl truthy at 3.
        destruct (assoc "user" props0); try discriminate.
        inversion Hl; subst. specialize (Hu eq_refl). inversion Hu; subst.
        cbv iota. destruct (truthy a) eqn:Ta; [exact Ta|].
        destruct (truthy j) eqn:Tj; [exact Tj | exact Tv].
  - rewrite (checkAuth_no_session s w T) in H. inversion H; subst.
    split; [discriminate|].
    intros Hc. destruct (carries_marker_object Hc) as [props ->]. discriminate.
Qed.

(** C6.  [checkAuth] answers [false] when the request has no session
    ([undefined] or [null]); on every session value whatsoever it returns a
    boolean and throws nothing; and the boolean is [true] exactly when the
    session carries one of the recognized markers. *)
Theorem C6_checkAuth_markers :
  (forall w, fst (checkAuth (mkRequest JUndefined) w) = Normal false) /\
  (forall w, fst (checkAuth (mkRequest JNull) w) = Normal false) /\
  (forall s w, exists b w',
      checkAuth (mkRequest s) w = (Normal b, w') /\
      (b = true <-> carries_marker s)).
Proof.
  split; [reflexivity|]. split; [reflexivity|].
  intros s w. destruct (checkAuth_total (mkRequest s) w) as (b & w' & H).
  exists b, w'. split; [exact H|]. exact (checkAuth_true_iff_marker _ _ H).
Qed.

End SessionCheck.

(* ================================================================== *)
(** ** The two guards *)

Section Guards.
Variable Snap : Type.

(** C7.  Both guards run the same [checkAuth].  When it answers [true]
    both hand the request to the protected handler [next] and are that
    handler; when it answers [false] neither calls [next]: the API guard
    answers 401 with the body [{ error: 'Unauthorized' }], the page guard
    redirects to [/admin/login]. *)
Theorem C7_guards_same_gate :
  forall (req : Request) (res : Response Snap)
         (next : Response Snap -> M (Response Snap)) (w : World),
  exists (b : bool) (w' : World),
    checkAuth req w = (Normal b, w') /\
    if b then
      requireAuth req res next w = next res w' /\
      requireAuthWeb req res next w = next res w'
    else
      requireAuth req res next w =
        (Normal (mkResponse 401 (location res) (Some (BodyError "Unauthorized"))), w') /\
      requireAuthWeb req res next w =
        (Normal (mkResponse 302 (Some "/admin/login") (body res)), w').
Proof.
  intros req res next w.
  destruct (checkAuth_total req w) as (b & w' & H).
  exists b, w'. split; [exact H|].
  unfold requireAuth, requireAuthWeb, bind. rewrite H.
  destruct b; split; reflexivity.
Qed.

End Guards.

(* ================================================================== *)
(** ** Credentials *)

Section Credentials.
Context {argon2 : Argon2}.

Lemma authenticate_unknown :
  forall email password w,
    find (fun u => AdminUser.email u =? email) (adminUsers w) = None ->
    authenticate email password w = (Normal None, w).
Proof.
  intros email password w H. unfold authenticate, bind, read, ret.
  rewrite H. reflexivity.
Qed.

Lemma authenticate_known :
  forall email password w user,
    find (fun u => AdminUser.email u =? email) (adminUsers w) = Some user ->
    authenticate email password w =
      match argon2_verify (AdminUser.password user) password with
      | Normal true =>
          (Normal (Some (Principal.make (AdminUser.email user) (AdminUser.role user))), w)
      | Normal false => (Normal None, w)
      | Throw e =>
          (Normal None, snd (logger (LogErrorWith "Error during authentication:" e) w))
      end.
Proof.
  intros email password w user H.
  unfold authenticate, bind, read, ret, try_catch, lift. rewrite H.
  destruct (argon2_verify (AdminUser.password user) password) as [[|]|e];
    reflexivity.
Qed.

Lemma authenticate_total :
  forall email password w,
    exists r w', authenticate email password w = (Normal r, w').
Proof.
  intros email password w.
  destruct (find (fun u => AdminUser.email u =? email) (adminUsers w))
    as [user|] eqn:F.
  - rewrite (authenticate_known _ password _ F).
    destruct (argon2_verify (AdminUser.password user) password) as [[|]|e]; eauto.
  - rewrite (authenticate_unknown _ password _ F). eauto.
Qed.

Lemma initializeAdminUser_configured :
  forall salt e p w,
    assoc "ADMIN_EMAIL" (process_env w) = Some e ->
    assoc "ADMIN_PASSWORD" (process_env w) = Some p ->
    e <> "" -> p <> "" ->
    initializeAdminUser salt w =
      (Normal tt,
       mkWorld (process_env w)
               (adminUsers w ++ [AdminUser.make e (argon2_hash salt p) "admin"])
               (search_queries w) (clock w)
               (log w ++ [LogInfo "Admin user initialized"])).
Proof.
  intros salt e p w He Hp Ne Np.
  unfold initializeAdminUser, bind, env_var, read. rewrite He, Hp.
  cbv beta iota. unfold truthy. apply String.eqb_neq in Ne, Np. rewrite Ne, Np.
  reflexivity.
Qed.

End Credentials.

(** C1.  Whatever the primitive does, [authenticate] returns and never
    throws; when [verify] rejects, the answer is [null]; without a
    configured identity the answer is [null].  With a primitive that
    verifies a hash against exactly its password, once the identity
    [(e, p)] of the environment is initialized, [authenticate(e, p)] is the
    principal [{ email: e, role: 'admin' }] and every other pair of inputs
    gets [null]. *)
Theorem C1_authenticate_configured_pair :
  forall argon2 : Argon2,
    (forall email password w,
        exists r w', authenticate email password w = (Normal r, w')) /\
    (forall email password w user err,
        find (fun u => AdminUser.email u =? email) (adminUsers w) = Some user ->
        argon2_verify (AdminUser.password user) password = Throw err ->
        fst (authenticate email password w) = Normal None) /\
    (forall email password w,
        adminUsers w = [] -> authenticate email password w = (Normal None, w)) /\
    (Argon2Sound argon2 ->
     forall salt e p w,
       adminUsers w = [] ->
       assoc "ADMIN_EMAIL" (process_env w) = Some e ->
       assoc "ADMIN_PASSWORD" (process_env w) = Some p ->
       e <> "" -> p <> "" ->
       exists w1,
         initializeAdminUser salt w = (Normal tt, w1) /\
         authenticate e p w1 = (Normal (Some (Principal.make e "admin")), w1) /\
         forall e' p', (e', p') <> (e, p) ->
                       authenticate e' p' w1 = (Normal None, w1)).
Proof.
  intros argon2. split; [apply authenticate_total|].
  split.
  { intros email password w user err F V.
    rewrite (authenticate_known _ password _ F), V. reflexivity. }
  split.
  { intros email password w E. apply authenticate_unknown. rewrite E. reflexivity. }
  intros Sound salt e p w E He Hp Ne Np.
  eexists. split; [exact (initializeAdminUser_configured salt w He Hp Ne Np)|].
  rewrite E. simpl app. split.
  - rewrite (@authenticate_known _ e p _ (AdminUser.make e (argon2_hash salt p) "admin")).
    + simpl. rewrite Sound, String.eqb_refl. reflexivity.
    + simpl. rewrite String.eqb_refl. reflexivity.
  - intros e' p' D. destruct (String.eqb_spec e e') as [<-|Ne'].
    + rewrite (@authenticate_known _ e p' _ (AdminUser.make e (argon2_hash salt p) "admin")).
      * simpl. rewrite Sound. destruct (String.eqb_spec p p') as [<-|_];
          [congruence | reflexivity].
      * simpl. rewrite String.eqb_refl. reflexivity.
    + apply authenticate_unknown. simpl.
      apply String.eqb_neq in Ne'. rewrite Ne'. reflexivity.
Qed.

Lemma plain_argon2_sound : Argon2Sound plain_argon2.
Proof. intros salt p p'. reflexivity. Qed.

Lemma C1_witness :
  let w := with_env (credentials "admin@example.com" "YourStrongPassword123!") (store_of []) in
  exists w1,
    initializeAdminUser (argon2 := plain_argon2) "salt" w = (Normal tt, w1) /\
    authenticate (argon2 := plain_argon2) "admin@example.com" "YourStrongPassword123!" w1
      = (Normal (Some (Principal.make "admin@example.com" "admin")), w1) /\
    forall e' p', (e', p') <> ("admin@example.com", "YourStrongPassword123!") ->
                  authenticate (argon2 := plain_argon2) e' p' w1 = (Normal None, w1).
Proof.
  intros w.
  destruct (C1_authenticate_configured_pair plain_argon2) as (_ & _ & _ & H).
  apply (H plain_argon2_sound "salt" "admin@example.com" "YourStrongPassword123!" w);
    [ reflexivity | reflexivity | reflexivity | discriminate | discriminate ].
Defined.

(* ================================================================== *)
(** ** Initializing twice *)

(** C8, as the specification has it, fails: with the same e-mail
    initialized twice, the second password is refused and the first one is
    still accepted. *)
Lemma C8_counterexample :
  ~ (fst (authenticate (argon2 := plain_argon2)
                       "admin@example.com" "second" same_email_twice)
       = Normal (Some (Principal.make "admin@example.com" "admin")) /\
     fst (authenticate (argon2 := plain_argon2)
                       "admin@example.com" "first" same_email_twice)
       = Normal None).
Proof. intros [H _]. vm_compute in H. discriminate H. Qed.

Lemma same_email_twice_run :
  fst (authenticate (argon2 := plain_argon2)
                    "admin@example.com" "second" same_email_twice) = Normal None /\
  fst (authenticate (argon2 := plain_argon2)
                    "admin@example.com" "first" same_email_twice)
    = Normal (Some (Principal.make "admin@example.com" "admin")) /\
  List.length (adminUsers same_email_twice) = 2.
Proof. repeat split. Qed.

Lemma initializeAdminUser_with_env :
  forall (argon2 : Argon2) salt e p w,
    e <> "" -> p <> "" ->
    initializeAdminUser salt (with_env (credentials e p) w) =
      (Normal tt,
       mkWorld (credentials e p)
               (adminUsers w ++ [AdminUser.make e (argon2_hash salt p) "admin"])
               (search_queries w) (clock w)
               (log w ++ [LogInfo "Admin user initialized"])).
Proof.
  intros argon2 salt e p w Ne Np.
  exact (@initializeAdminUser_configured _ salt e p
           (with_env (credentials e p) w) eq_refl eq_refl Ne Np).
Qed.

Lemma reinitialized_users :
  forall (argon2 : Argon2) salt1 salt2 e1 p1 e2 p2,
    e1 <> "" -> p1 <> "" -> e2 <> "" -> p2 <> "" ->
    adminUsers (reinitialized salt1 salt2 e1 p1 e2 p2) =
      [AdminUser.make e1 (argon2_hash salt1 p1) "admin";
       AdminUser.make e2 (argon2_hash salt2 p2) "admin"].
Proof.
  intros argon2 salt1 salt2 e1 p1 e2 p2 N1 M1 N2 M2. unfold reinitialized.
  rewrite (initializeAdminUser_with_env _ salt1 (store_of []) N1 M1).
  cbn [snd].
  rewrite (initializeAdminUser_with_env _ salt2 _ N2 M2).
  reflexivity.
Qed.

(** C8, amended.  A second initialization appends a second identity and
    leaves the first in place; [authenticate] checks a password against the
    earliest identity registered under the e-mail.  So [(e1, p1)] still
    gets the principal; [(e2, p2)] gets it when [e2] differs from [e1]; and
    when the e-mail is the same and the passwords differ, [p2] is
    refused. *)
Theorem C8_reinitialize_appends :
  forall argon2 : Argon2, Argon2Sound argon2 ->
  forall salt1 salt2 e1 p1 e2 p2,
    e1 <> "" -> p1 <> "" -> e2 <> "" -> p2 <> "" ->
    let w2 := reinitialized salt1 salt2 e1 p1 e2 p2 in
    adminUsers w2 =
      [AdminUser.make e1 (argon2_hash salt1 p1) "admin";
       AdminUser.make e2 (argon2_hash salt2 p2) "admin"] /\
    authenticate e1 p1 w2 = (Normal (Some (Principal.make e1 "admin")), w2) /\
    (e2 <> e1 ->
     authenticate e2 p2 w2 = (Normal (Some (Principal.make e2 "admin")), w2)) /\
    (e2 = e1 -> p2 <> p1 -> authenticate e1 p2 w2 = (Normal None, w2)).
Proof.
  intros argon2 Sound salt1 salt2 e1 p1 e2 p2 N1 M1 N2 M2 w2.
  pose proof (reinitialized_users argon2 salt1 salt2 N1 M1 N2 M2) as U.
  fold w2 in U. split; [exact U|].
  assert (F1 : forall p,
             authenticate e1 p w2 =
               if p1 =? p then (Normal (Some (Principal.make e1 "admin")), w2)
               else (Normal None, w2)).
  { intros p.
    rewrite (@authenticate_known _ e1 p w2
               (AdminUser.make e1 (argon2_hash salt1 p1) "admin")).
    - simpl. rewrite Sound. destruct (p1 =? p); reflexivity.
    - rewrite U. simpl. rewrite String.eqb_refl. reflexivity. }
  split; [rewrite F1, String.eqb_refl; reflexivity|].
  split.
  - intros D.
    rewrite (@authenticate_known _ e2 p2 w2
               (AdminUser.make e2 (argon2_hash salt2 p2) "admin")).
    + simpl. rewrite Sound, String.eqb_refl. reflexivity.
    + rewrite U. simpl. apply not_eq_sym in D. apply String.eqb_neq in D.
      rewrite D, String.eqb_refl. reflexivity.
  - intros _ D. rewrite F1. apply not_eq_sym in D. apply String.eqb_neq in D.
    rewrite D. reflexivity.
Qed.

Lemma C8_witness :
  adminUsers same_email_twice =
    [AdminUser.make "admin@example.com" "first" "admin";
     AdminUser.make "admin@example.com" "second" "admin"] /\
  authenticate (argon2 := plain_argon2) "admin@example.com" "first" same_email_twice
    = (Normal (Some (Principal.make "admin@example.com" "admin")), same_email_twice) /\
  authenticate (argon2 := plain_argon2) "admin@example.com" "second" same_email_twice
    = (Normal None, same_email_twice).
Proof.
  destruct (@C8_reinitialize_appends plain_argon2 plain_argon2_sound
              "salt1" "salt2" "admin@example.com" "first"
              "admin@example.com" "second")
    as (U & A1 & _ & A2); try discriminate.
  split; [exact U|]. split; [exact A1|].
  apply A2; [reflexivity | discriminate].
Defined.

(* ================================================================== *)
(** ** Grouping, plain objects and ordering *)

Section GroupFacts.
Variables (A K : Type).
Variable K_eqb : K -> K -> bool.
Hypothesis K_eqb_spec : forall a b, reflect (a = b) (K_eqb a b).

Lemma K_eqb_refl : forall k, K_eqb k k = true.
Proof. intros k. destruct (K_eqb_spec k k); congruence. Qed.

Lemma obj_get_bump :
  forall (gs : list (K * nat)) k k',
    obj_get K_eqb (bump K_eqb k gs) k' =
      if K_eqb k' k
      then Some (S (match obj_get K_eqb gs k with Some n => n | None => 0 end))
      else obj_get K_eqb gs k'.
Proof.
  induction gs as [|[x n] gs IH]; intros k k'; simpl.
  - destruct (K_eqb k' k); reflexivity.
  - destruct (K_eqb_spec k x) as [->|D]; simpl.
    + destruct (K_eqb k' x); reflexivity.
    + rewrite IH. destruct (K_eqb_spec k' x) as [->|D'].
      * destruct (K_eqb_spec x k); [congruence | reflexivity].
      * reflexivity.
Qed.

Lemma obj_get_fold_bump :
  forall (key : A -> K) rows acc k,
    obj_get K_eqb (fold_left (fun gs r => bump K_eqb (key r) gs) rows acc) k =
      let c := count_if (fun r => K_eqb k (key r)) rows in
      match obj_get K_eqb acc k with
      | Some n => Some (n + c)
      | None => if Nat.eqb c 0 then None else Some c
      end.
Proof.
  intros key rows. induction rows as [|r rows IH]; intros acc k; simpl.
  - destruct (obj_get K_eqb acc k); [f_equal; lia | reflexivity].
  - rewrite IH. rewrite obj_get_bump.
    destruct (K_eqb_spec k (key r)) as [->|D]; simpl.
    + destruct (obj_get K_eqb acc (key r)); f_equal; lia.
    + reflexivity.
Qed.

(** A group per key that occurs, holding the number of its rows. *)
Lemma obj_get_group_count :
  forall (key : A -> K) rows k,
    obj_get K_eqb (group_count K_eqb key rows) k =
      let c := count_if (fun r => K_eqb k (key r)) rows in
      if Nat.eqb c 0 then None else Some c.
Proof. intros. unfold group_count. rewrite obj_get_fold_bump. reflexivity. Qed.

Lemma In_keys_bump :
  forall (gs : list (K * nat)) k x,
    In x (map fst (bump K_eqb k gs)) <-> x = k \/ In x (map fst gs).
Proof.
  induction gs as [|[y n] gs IH]; intros k x; simpl.
  - intuition.
  - destruct (K_eqb_spec k y) as [->|D]; simpl.
    + intuition.
    + rewrite IH. intuition.
Qed.

Lemma NoDup_keys_bump :
  forall (gs : list (K * nat)) k,
    NoDup (map fst gs) -> NoDup (map fst (bump K_eqb k gs)).
Proof.
  induction gs as [|[y n] gs IH]; intros k ND; simpl.
  - constructor; [intros [] | constructor].
  - inversion ND as [|? ? Hy ND']; subst.
    destruct (K_eqb_spec k y) as [->|D]; simpl.
    + constructor; assumption.
    + constructor; [|apply IH; assumption].
      rewrite In_keys_bump. intros [E|I]; [congruence | contradiction].
Qed.

Lemma NoDup_keys_group_count :
  forall (key : A -> K) rows, NoDup (map fst (group_count K_eqb key rows)).
Proof.
  intros key rows. unfold group_count.
  assert (G : forall acc, NoDup (map fst acc) ->
                NoDup (map fst (fold_left (fun gs r => bump K_eqb (key r) gs) rows acc))).
  { induction rows as [|r rows IH]; intros acc ND; simpl; [exact ND|].
    apply IH. apply NoDup_keys_bump. exact ND. }
  apply G. constructor.
Qed.

Section Lookup.
Variable V : Type.

Lemma obj_get_In :
  forall (l : list (K * V)) k v, obj_get K_eqb l k = Some v -> In (k, v) l.
Proof.
  induction l as [|[x y] l IH]; intros k v H; simpl in *; [discriminate|].
  destruct (K_eqb_spec k x) as [->|D].
  - inversion H; subst. left; reflexivity.
  - right. apply IH. exact H.
Qed.

Lemma In_obj_get :
  forall (l : list (K * V)) k v,
    NoDup (map fst l) -> In (k, v) l -> obj_get K_eqb l k = Some v.
Proof.
  induction l as [|[x y] l IH]; intros k v ND H; simpl in *; [contradiction|].
  inversion ND as [|? ? Hx ND']; subst.
  destruct H as [E|I].
  - inversion E; subst. rewrite K_eqb_refl. reflexivity.
  - destruct (K_eqb_spec k x) as [->|D].
    + exfalso. apply Hx. apply (in_map fst) in I. exact I.
    + apply IH; assumption.
Qed.

Lemma obj_get_Permutation :
  forall (l l' : list (K * V)) k,
    NoDup (map fst l) -> Permutation l l' -> obj_get K_eqb l' k = obj_get K_eqb l k.
Proof.
  intros l l' k ND P.
  assert (ND' : NoDup (map fst l')).
  { eapply Permutation_NoDup; [apply Permutation_map; exact P | exact ND]. }
  destruct (obj_get K_eqb l k) as [v|] eqn:E.
  - apply In_obj_get; [exact ND'|]. eapply Permutation_in; [exact P|].
    apply obj_get_In. exact E.
  - destruct (obj_get K_eqb l' k) as [v|] eqn:E'; [|reflexivity].
    apply obj_get_In in E'. apply Permutation_sym in P.
    eapply Permutation_in in E'; [|exact P].
    pose proof (@In_obj_get l k v ND E') as X. congruence.
Qed.

Lemma obj_get_obj_set :
  forall (obj : list (K * V)) k v k',
    obj_get K_eqb (obj_set K_eqb obj k v) k' =
      if K_eqb k' k then Some v else obj_get K_eqb obj k'.
Proof.
  induction obj as [|[x y] obj IH]; intros k v k'; simpl.
  - reflexivity.
  - destruct (K_eqb_spec k x) as [->|D]; simpl.
    + destruct (K_eqb k' x); reflexivity.
    + rewrite IH. destruct (K_eqb_spec k' x) as [->|D'].
      * destruct (K_eqb_spec x k); [congruence | reflexivity].
      * reflexivity.
Qed.

Lemma obj_set_fresh :
  forall (obj : list (K * V)) k v,
    ~ In k (map fst obj) -> obj_set K_eqb obj k v = obj ++ [(k, v)].
Proof.
  induction obj as [|[x y] obj IH]; intros k v H; simpl in *; [reflexivity|].
  destruct (K_eqb_spec k x) as [->|D].
  - exfalso. apply H. left; reflexivity.
  - f_equal. apply IH. intros I. apply H. right; exact I.
Qed.

(** Copying rows with pairwise distinct keys into an object yields the
    rows, in their order. *)
Lemma forEach_obj_set_distinct :
  forall (rows acc : list (K * V)),
    NoDup (map fst (acc ++ rows)) ->
    forEach rows (fun obj row => obj_set K_eqb obj (fst row) (snd row)) acc
    = acc ++ rows.
Proof.
  unfold forEach.
  induction rows as [|[x y] rows IH]; intros acc ND; simpl.
  - rewrite app_nil_r. reflexivity.
  - rewrite obj_set_fresh.
    + rewrite IH; rewrite <- app_assoc; [reflexivity | exact ND].
    + rewrite map_app in ND. simpl in ND.
      apply NoDup_remove_2 in ND. intros I. apply ND.
      apply in_or_app. left; exact I.
Qed.
End Lookup.
End GroupFacts.

Section OrderFacts.
Variable A : Type.
Variable le : A -> A -> bool.

Lemma insert_by_Permutation :
  forall x l, Permutation (insert_by le x l) (x :: l).
Proof.
  intros x l. induction l as [|y l IH]; simpl.
  - apply Permutation_refl.
  - destruct (le x y).
    + apply Permutation_refl.
    + eapply perm_trans; [apply perm_skip; exact IH | apply perm_swap].
Qed.

Lemma order_by_Permutation : forall l, Permutation (order_by le l) l.
Proof.
  induction l as [|x l IH]; simpl.
  - apply perm_nil.
  - eapply perm_trans; [apply insert_by_Permutation | apply perm_skip; exact IH].
Qed.

Lemma order_by_length : forall l, List.length (order_by le l) = List.length l.
Proof. intros l. apply Permutation_length. apply order_by_Permutation. Qed.

Hypothesis le_total : forall x y, le x y = true \/ le y x = true.
Hypothesis le_trans : forall x y z, le x y = true -> le y z = true -> le x z = true.

Lemma insert_by_sorted :
  forall x l,
    StronglySorted (fun a b => le a b = true) l ->
    StronglySorted (fun a b => le a b = true) (insert_by le x l).
Proof.
  intros x l S. induction S as [|y l S IH F]; simpl.
  - constructor; constructor.
  - destruct (le x y) eqn:E.
    + constructor; [constructor; assumption|].
      constructor; [exact E|].
      rewrite Forall_forall in *. intros z Hz. eapply le_trans; eauto.
    + constructor; [exact IH|].
      rewrite Forall_forall in *. intros z Hz.
      eapply Permutation_in in Hz; [|apply insert_by_Permutation].
      destruct Hz as [<-|Hz]; [|auto].
      destruct (le_total x y); congruence.
Qed.

Lemma order_by_sorted :
  forall l, StronglySorted (fun a b => le a b = true) (order_by le l).
Proof.
  induction l as [|x l IH]; simpl; [constructor | apply insert_by_sorted; exact IH].
Qed.
End OrderFacts.

Lemma In_firstn :
  forall (A : Type) n (l : list A) x, In x (firstn n l) -> In x l.
Proof.
  intros A n. induction n as [|n IH]; intros l x H; simpl in H; [contradiction|].
  destruct l as [|y l]; [contradiction|].
  destruct H as [E|I]; [left; exact E | right; apply IH; exact I].
Qed.

Lemma StronglySorted_firstn :
  forall (A : Type) (R : A -> A -> Prop) n l,
    StronglySorted R l -> StronglySorted R (firstn n l).
Proof.
  intros A R n. induction n as [|n IH]; intros l S; simpl; [constructor|].
  destruct l as [|x l]; [constructor|].
  inversion S; subst. constructor; [apply IH; assumption|].
  rewrite Forall_forall in *. intros y Hy. apply In_firstn in Hy. auto.
Qed.

Lemma null_last_leb_total :
  forall a b, null_last_leb a b = true \/ null_last_leb b a = true.
Proof.
  intros [x|] [y|]; simpl; auto.
  destruct (Z.leb_spec x y); [left; reflexivity|].
  right. apply Z.leb_le. lia.
Qed.

Lemma null_last_leb_trans :
  forall a b c, null_last_leb a b = true -> null_last_leb b c = true ->
                null_last_leb a c = true.
Proof.
  intros [x|] [y|] [z|]; simpl; intros H1 H2; try congruence.
  apply Z.leb_le in H1, H2. apply Z.leb_le. lia.
Qed.

Lemma option_eqb_spec :
  forall (T : Type) (eqb : T -> T -> bool),
    (forall a b, reflect (a = b) (eqb a b)) ->
    forall a b : option T, reflect (a = b) (option_eqb eqb a b).
Proof.
  intros T eqb S [x|] [y|]; simpl; try (constructor; congruence).
  destruct (S x y); constructor; congruence.
Qed.

Lemma text_eqb_spec :
  forall a b : option string, reflect (a = b) (option_eqb String.eqb a b).
Proof. exact (@option_eqb_spec _ _ String.eqb_spec). Qed.

Lemma date_eqb_spec :
  forall a b : option Z, reflect (a = b) (option_eqb Z.eqb a b).
Proof. exact (@option_eqb_spec _ _ Z.eqb_spec). Qed.

(* ================================================================== *)
(** ** What the handler computes *)

(** The snapshot, read off the handler: it is returned on every store, the
    state is left as it was, and each part is the stated function of the
    rows. *)
Lemma computeSnapshot_returns :
  forall w, exists s,
    computeSnapshot w = (Normal s, w) /\
    total s = List.length (search_queries w) /\
    searchTypeBreakdown s =
      forEach (group_count (option_eqb String.eqb) Row.search_type (search_queries w))
        (fun obj row => obj_assign obj (text_or (fst row) "Unknown") (snd row)) [] /\
    platformBreakdown s =
      forEach (group_count (option_eqb String.eqb) Row.platform_name
                 (filter (fun r => negb (option_eqb String.eqb (Row.platform_name r) None))
                         (search_queries w)))
        (fun obj row => obj_assign obj (text_or (fst row) "Unknown") (snd row)) [] /\
    timelineData s =
      order_by (fun g1 g2 => null_last_leb (fst g1) (fst g2))
        (group_count (option_eqb Z.eqb) (fun r => sql_DATE (Row.created_at r))
                     (search_queries w)) /\
    dateRange s =
      mkDateRange (js_of_timestamp (sql_MIN (map Row.created_at (search_queries w))))
                  (js_of_timestamp (sql_MAX (map Row.created_at (search_queries w)))) /\
    recentQueries s =
      map (fun r => RecentQuery.make (JNum (Row.id r)) (js_of_text (Row.keyword r))
                      (js_of_text (Row.search_type r)) JUndefined
                      (js_of_timestamp (Row.created_at r)))
          (firstn 10
             (order_by (fun r1 r2 => null_last_leb (Row.created_at r2) (Row.created_at r1))
                       (search_queries w))).
Proof.
  intros w. eexists. split.
  { unfold computeSnapshot, bind, ret, read, SearchQuery_count,
      SearchQuery_by_search_type, SearchQuery_by_platform_name,
      SearchQuery_by_date, SearchQuery_min_max, SearchQuery_recent.
    cbv beta iota zeta. reflexivity. }
  cbn [total searchTypeBreakdown platformBreakdown timelineData dateRange
       recentQueries].
  repeat (split; [reflexivity|]).
  split.
  - apply forEach_obj_set_distinct with (K_eqb_spec := date_eqb_spec). simpl.
    eapply Permutation_NoDup.
    + apply Permutation_map. apply Permutation_sym. apply order_by_Permutation.
    + apply NoDup_keys_group_count. exact date_eqb_spec.
  - split; [reflexivity|]. rewrite map_map. reflexivity.
Qed.

Lemma count_if_ext :
  forall (A : Type) (p q : A -> bool) l,
    (forall x, In x l -> p x = q x) -> count_if p l = count_if q l.
Proof.
  intros A p q l. induction l as [|x l IH]; intros H; simpl; [reflexivity|].
  rewrite (H x (or_introl eq_refl)). f_equal. apply IH.
  intros y Hy. apply H. right; exact Hy.
Qed.


Lemma count_if_all :
  forall (A : Type) (p : A -> bool) l,
    (forall x, In x l -> p x = true) -> count_if p l = List.length l.
Proof.
  intros A p l. induction l as [|x l IH]; intros H; simpl; [reflexivity|].
  rewrite (H x (or_introl eq_refl)). simpl. f_equal. apply IH.
  intros y Hy. apply H. right; exact Hy.
Qed.

Lemma count_if_pos :
  forall (A : Type) (p : A -> bool) l x,
    In x l -> p x = true -> 1 <= count_if p l.
Proof.
  intros A p l. induction l as [|y l IH]; intros x H T; simpl; [contradiction|].
  destruct H as [->|I]; [rewrite T; lia|].
  specialize (IH x I T). lia.
Qed.

(** ** Labelled breakdowns *)

Lemma obj_get_obj_assign :
  forall (V : Type) (obj : list (string * V)) k v k',
    obj_get String.eqb (obj_assign obj k v) k' =
      if k =? "__proto__" then obj_get String.eqb obj k'
      else if k' =? k then Some v else obj_get String.eqb obj k'.
Proof.
  intros V obj k v k'. unfold obj_assign.
  destruct (k =? "__proto__"); [reflexivity|].
  apply (obj_get_obj_set _ String.eqb_spec).
Qed.

(** An assignment removes no property. *)
Lemma obj_assign_keeps :
  forall (V : Type) (obj : list (string * V)) k v k' n,
    obj_get String.eqb obj k' = Some n ->
    exists n', obj_get String.eqb (obj_assign obj k v) k' = Some n'.
Proof.
  intros V obj k v k' n H. rewrite obj_get_obj_assign.
  destruct (k =? "__proto__"); [eauto|].
  destruct (k' =? k); eauto.
Qed.

Section Breakdown.
Variable label : option string -> string.

Local Notation "'write'" :=
  (fun (obj : list (string * nat)) (row : option string * nat) =>
     obj_assign obj (label (fst row)) (snd row)) (only parsing).

Lemma breakdown_entry_origin :
  forall gs acc k n,
    obj_get String.eqb (forEach gs write acc) k = Some n ->
    (exists x, In (x, n) gs /\ label x = k) \/ obj_get String.eqb acc k = Some n.
Proof.
  unfold forEach.
  induction gs as [|[x m] gs IH]; intros acc k n H; simpl in H; [right; exact H|].
  destruct (IH _ _ _ H) as [(y & I & L)|G].
  - left. exists y. split; [right; exact I | exact L].
  - simpl in G. rewrite obj_get_obj_assign in G.
    destruct (label x =? "__proto__"); [right; exact G|].
    destruct (String.eqb_spec k (label x)) as [->|D].
    + inversion G; subst. left. exists x. split; [left; reflexivity | reflexivity].
    + right. exact G.
Qed.

Lemma breakdown_key_stays :
  forall gs acc k n,
    obj_get String.eqb acc k = Some n ->
    exists n', obj_get String.eqb (forEach gs write acc) k = Some n'.
Proof.
  unfold forEach.
  induction gs as [|[x m] gs IH]; intros acc k n H; simpl; [eauto|].
  destruct (obj_assign_keeps acc (label x) m k H) as [n' H'].
  apply (IH _ k n'). exact H'.
Qed.

(** A group whose label is not [__proto__] leaves its label as a key. *)
Lemma breakdown_group_labelled :
  forall gs acc x m,
    In (x, m) gs -> label x <> "__proto__" ->
    exists n, obj_get String.eqb (forEach gs write acc) (label x) = Some n.
Proof.
  unfold forEach.
  induction gs as [|[y m'] gs IH]; intros acc x m H NP; simpl; [contradiction|].
  destruct H as [E|I].
  - inversion E; subst. apply (@breakdown_key_stays gs _ (label x) m).
    simpl. rewrite obj_get_obj_assign.
    apply String.eqb_neq in NP. rewrite NP, String.eqb_refl. reflexivity.
  - apply (IH _ x m I NP).
Qed.

(** [__proto__] never becomes a key. *)
Lemma breakdown_no_proto :
  forall gs acc,
    obj_get String.eqb acc "__proto__" = None ->
    obj_get String.eqb (forEach gs write acc) "__proto__" = None.
Proof.
  unfold forEach.
  induction gs as [|[x m] gs IH]; intros acc H; simpl; [exact H|].
  apply IH. simpl. rewrite obj_get_obj_assign.
  destruct (String.eqb_spec (label x) "__proto__") as [E|D]; [exact H|].
  destruct (String.eqb_spec "__proto__" (label x)) as [E'|_]; [congruence | exact H].
Qed.
End Breakdown.


Lemma text_or_not_empty : forall x, text_or x "Unknown" <> "".
Proof.
  intros [s|]; simpl; [|discriminate].
  destruct (String.eqb_spec s ""); [discriminate | assumption].
Qed.

(** A group of [group_count] stands for at least one row and holds the
    number of rows with its key. *)
Lemma group_count_In :
  forall (A : Type) (key : A -> option string) rows x n,
    In (x, n) (group_count (option_eqb String.eqb) key rows) ->
    n = count_if (fun r => option_eqb String.eqb x (key r)) rows /\ 1 <= n.
Proof.
  intros A key rows x n H.
  apply (In_obj_get _ text_eqb_spec) in H;
    [|apply NoDup_keys_group_count; exact text_eqb_spec].
  rewrite (obj_get_group_count _ text_eqb_spec) in H. simpl in H.
  destruct (count_if (fun r => option_eqb String.eqb x (key r)) rows) as [|c] eqn:E;
    simpl in H; [discriminate|].
  inversion H; subst. split; [reflexivity | lia].
Qed.

Lemma In_group_count :
  forall (A : Type) (key : A -> option string) rows r,
    In r rows ->
    In (key r, count_if (fun r' => option_eqb String.eqb (key r) (key r')) rows)
       (group_count (option_eqb String.eqb) key rows).
Proof.
  intros A key rows r H. apply (obj_get_In _ text_eqb_spec).
  rewrite (obj_get_group_count _ text_eqb_spec). simpl.
  assert (P : 1 <= count_if (fun r' => option_eqb String.eqb (key r) (key r')) rows).
  { apply count_if_pos with (x := r); [exact H|].
    destruct (text_eqb_spec (key r) (key r)); congruence. }
  destruct (count_if (fun r' => option_eqb String.eqb (key r) (key r')) rows);
    [lia | reflexivity].
Qed.

Lemma count_if_witness :
  forall (A : Type) (p : A -> bool) l,
    1 <= count_if p l -> exists x, In x l /\ p x = true.
Proof.
  intros A p l. induction l as [|y l IH]; simpl; intros H; [lia|].
  destruct (p y) eqn:E.
  - exists y. split; [left; reflexivity | exact E].
  - destruct (IH H) as (x & I & T). exists x. split; [right; exact I | exact T].
Qed.




(* ================================================================== *)
(** ** The empty store *)

(** C4.  On a store without records the snapshot has [total] 0, a
    [dateRange] of two [null]s, no recent queries, and empty breakdowns
    (and an empty timeline). *)
Theorem C4_empty_store :
  forall w, search_queries w = [] ->
    exists s,
      computeSnapshot w = (Normal s, w) /\
      total s = 0 /\
      dateRange s = mkDateRange JNull JNull /\
      recentQueries s = [] /\
      searchTypeBreakdown s = [] /\
      platformBreakdown s = [] /\
      timelineData s = [].
Proof.
  intros w E.
  destruct (computeSnapshot_returns w) as (s & R & T & ST & PF & TL & DR & RQ).
  exists s. rewrite E in *. split; [exact R|].
  rewrite T, DR, RQ, ST, PF, TL. repeat split.
Qed.

Lemma C4_witness :
  exists s,
    computeSnapshot (store_of []) = (Normal s, store_of []) /\
    total s = 0 /\
    dateRange s = mkDateRange JNull JNull /\
    recentQueries s = [] /\
    searchTypeBreakdown s = [] /\
    platformBreakdown s = [] /\
    timelineData s = [].
Proof. apply (C4_empty_store (store_of [])). reflexivity. Defined.

(* ================================================================== *)
(** ** The timeline *)

(** C5.  For every day [d], whatever the clock and however far [d] lies
    from the newest record, [timelineData] has an entry for [d] exactly
    when some record was created on [d], and the entry is the number of
    records created on [d]. *)
Theorem C5_timeline_every_day :
  forall w, exists s,
    computeSnapshot w = (Normal s, w) /\
    forall d,
      obj_get (option_eqb Z.eqb) (timelineData s) (Some d) =
        let n := count_if (created_on d) (search_queries w) in
        if Nat.eqb n 0 then None else Some n.
Proof.
  intros w.
  destruct (computeSnapshot_returns w) as (s & R & _ & _ & _ & TL & _ & _).
  exists s. split; [exact R|]. intros d. rewrite TL.
  rewrite (@obj_get_Permutation _ _ date_eqb_spec _
             (group_count (option_eqb Z.eqb) (fun r => sql_DATE (Row.created_at r))
                          (search_queries w))).
  - rewrite (obj_get_group_count _ date_eqb_spec). simpl.
    rewrite (@count_if_ext _ _ (created_on d)); [reflexivity|].
    intros r _. unfold created_on, sql_DATE.
    destruct (Row.created_at r); simpl; [apply Z.eqb_sym | reflexivity].
  - apply NoDup_keys_group_count. exact date_eqb_spec.
  - apply Permutation_sym. apply order_by_Permutation.
Qed.

(* ================================================================== *)
(** ** The response *)

(** The handler leaves the state as it found it, and the [data] it sends
    is a function of the list of rows: on a state with the same list (a
    later clock, a longer log, another request) it sends the same [data].
    Only [timestamp], which is outside [data], follows the clock. *)
Lemma stats_handler_same_rows :
  forall req res w,
    exists data,
      stats_handler req res w
        = (Normal (res_json res (BodyStats true data (clock w))), w) /\
      forall req' res' w2,
        search_queries w2 = search_queries w ->
        stats_handler req' res' w2
          = (Normal (res_json res' (BodyStats true data (clock w2))), w2).
Proof.
  intros req res w.
  destruct (computeSnapshot_returns w) as (s & R & T & ST & PF & TL & DR & RQ).
  exists s. split.
  - unfold stats_handler, bind, read, ret. rewrite R. reflexivity.
  - intros req' res' w2 E.
    destruct (computeSnapshot_returns w2)
      as (s2 & R2 & T2 & ST2 & PF2 & TL2 & DR2 & RQ2).
    rewrite E in *.
    assert (S : s2 = s).
    { destruct s, s2; simpl in *. congruence. }
    unfold stats_handler, bind, read, ret. rewrite R2, S. reflexivity.
Qed.

(* ================================================================== *)
(** ** Recent queries *)

(** Reading an attribute off an instance gives the column when the
    attribute was selected, and [undefined] when it was not. *)
Lemma instance_get_selected :
  forall attributes r a,
    In a attributes -> instance_get (build_instance attributes r) a = column r a.
Proof.
  intros attributes r a. unfold instance_get, build_instance.
  induction attributes as [|b l IH]; intros H; simpl; [contradiction|].
  destruct (String.eqb_spec a b) as [->|D]; [reflexivity|].
  destruct H as [E|I]; [congruence | exact (IH I)].
Qed.

Lemma instance_get_not_selected :
  forall attributes r a,
    ~ In a attributes -> instance_get (build_instance attributes r) a = JUndefined.
Proof.
  intros attributes r a. unfold instance_get, build_instance.
  induction attributes as [|b l IH]; intros H; simpl; [reflexivity|].
  destruct (String.eqb_spec a b) as [->|D].
  - exfalso. apply H. left; reflexivity.
  - apply IH. intros I. apply H. right; exact I.
Qed.

(** The model declares no [platform_name]: an instance has none, whatever
    the row holds. *)
Lemma instance_platform_name_undefined :
  forall r, instance_get (SearchQuery_build r) "platform_name" = JUndefined.
Proof.
  intros r. apply instance_get_not_selected.
  intros H. simpl in H. repeat (destruct H as [H|H]; [discriminate H|]). exact H.
Qed.

(** What the handler puts into [recentQueries] on every store: at most ten
    elements, as many as [min(10, total)], made from stored rows taken in
    descending order of [created_at]; [id], [keyword], [search_type] and
    [created_at] are those of the row, and [platform_name] is [undefined],
    the model declaring no such attribute. *)
Lemma recentQueries_shape :
  forall w, exists s rows,
    computeSnapshot w = (Normal s, w) /\
    recentQueries s =
      map (fun r => RecentQuery.make (JNum (Row.id r)) (js_of_text (Row.keyword r))
                      (js_of_text (Row.search_type r)) JUndefined
                      (js_of_timestamp (Row.created_at r))) rows /\
    List.length (recentQueries s) = Nat.min 10 (total s) /\
    StronglySorted created_at_desc rows /\
    (forall r, In r rows -> In r (search_queries w)).
Proof.
  intros w.
  destruct (computeSnapshot_returns w) as (s & R & T & _ & _ & _ & _ & RQ).
  exists s. eexists. split; [exact R|]. split; [exact RQ|].
  split; [|split].
  - rewrite RQ, T, length_map, length_firstn, order_by_length. reflexivity.
  - apply StronglySorted_firstn.
    apply (@order_by_sorted _
             (fun r1 r2 => null_last_leb (Row.created_at r2) (Row.created_at r1))).
    + intros x y. apply null_last_leb_total.
    + intros x y z H1 H2. exact (null_last_leb_trans _ _ _ H2 H1).
  - intros r H. apply In_firstn in H.
    eapply Permutation_in; [apply order_by_Permutation | exact H].
Qed.

(** C3, on a store holding one record of the platform [web]: the element
    of [recentQueries] made from it has [platform_name] [undefined], not
    the record's [web]. *)
Theorem C3_recentQueries_platform_name :
  exists s,
    computeSnapshot (store_of [web_row]) = (Normal s, store_of [web_row]) /\
    recentQueries s =
      [RecentQuery.make (JNum 1) (JStr "shoes") (JStr "job") JUndefined
                        (JDate (day 19723))] /\
    column web_row "platform_name" = JStr "web".
Proof. eexists. split; [cbv; reflexivity | split; reflexivity]. Qed.

(* ================================================================== *)
(** ** Absent platform names and absent search types *)




(* ================================================================== *)
(** ** Empty strings as labels *)

(** On every store, the empty string is never a key of a breakdown, a
    record whose platform name is the empty string puts the key [Unknown]
    into [platformBreakdown], and a record whose search type is the empty
    string puts it into [searchTypeBreakdown]. *)
Lemma empty_label_is_Unknown :
  forall w, exists s,
    computeSnapshot w = (Normal s, w) /\
    obj_get String.eqb (platformBreakdown s) "" = None /\
    obj_get String.eqb (searchTypeBreakdown s) "" = None /\
    (forall r, In r (search_queries w) -> Row.platform_name r = Some "" ->
               exists n, obj_get String.eqb (platformBreakdown s) "Unknown" = Some n) /\
    (forall r, In r (search_queries w) -> Row.search_type r = Some "" ->
               exists n, obj_get String.eqb (searchTypeBreakdown s) "Unknown" = Some n).
Proof.
  intros w.
  destruct (computeSnapshot_returns w) as (s & R & _ & ST & PF & _ & _ & _).
  exists s. split; [exact R|].
  assert (NoEmpty : forall gs,
             obj_get String.eqb
               (forEach gs (fun obj (row : option string * nat) =>
                              obj_assign obj (text_or (fst row) "Unknown") (snd row))
                        []) "" = None).
  { intros gs.
    destruct (obj_get String.eqb (forEach gs _ []) "") as [n|] eqn:G; [|reflexivity].
    destruct (@breakdown_entry_origin (fun x => text_or x "Unknown") _ _ _ _ G) as [(x & _ & L)|G0];
      [|discriminate G0].
    exfalso. exact (text_or_not_empty _ L). }
  split; [rewrite PF; apply NoEmpty|]. split; [rewrite ST; apply NoEmpty|].
  split.
  - intros r I E. rewrite PF.
    assert (I' : In r (filter (fun r => negb (option_eqb String.eqb (Row.platform_name r) None))
                              (search_queries w))).
    { apply filter_In. split; [exact I|]. rewrite E. reflexivity. }
    pose proof (@In_group_count _ Row.platform_name _ _ I') as G. rewrite E in G.
    apply (@breakdown_group_labelled (fun x => text_or x "Unknown") _ [] _ _ G).
    discriminate.
  - intros r I E. rewrite ST.
    pose proof (@In_group_count _ Row.search_type _ _ I) as G. rewrite E in G.
    apply (@breakdown_group_labelled (fun x => text_or x "Unknown") _ [] _ _ G).
    discriminate.
Qed.

(** C10, on a store of two records, one without search type and one whose
    search type is the empty string: both groups are written to the key
    [Unknown], the second assignment replaces the first, and the bucket
    holds 1 although 2 records belong to it, in whichever order the two
    groups arrive.  The same happens in [platformBreakdown] to the empty
    string and a platform called [Unknown]. *)
Theorem C10_Unknown_bucket_overwritten :
  (exists s,
      computeSnapshot (store_of absent_and_empty_type)
        = (Normal s, store_of absent_and_empty_type) /\
      total s = 2 /\
      searchTypeBreakdown s = [("Unknown", 1)]) /\
  (forall searchTypeResults,
      Permutation [(None, 1); (Some "", 1)] searchTypeResults ->
      forEach searchTypeResults
        (fun obj row => obj_assign obj (text_or (fst row) "Unknown") (snd row))
        []
      = [("Unknown", 1)]) /\
  (exists s,
      computeSnapshot (store_of empty_and_Unknown_platform)
        = (Normal s, store_of empty_and_Unknown_platform) /\
      total s = 2 /\
      platformBreakdown s = [("Unknown", 1)]).
Proof.
  split; [|split].
  - eexists. split; [cbv; reflexivity | split; reflexivity].
  - intros gs P. apply Permutation_length_2_inv in P.
    destruct P as [->| ->]; reflexivity.
  - eexists. split; [cbv; reflexivity | split; reflexivity].
Qed.

Lemma C10_witness :
  forEach [(Some "", 1); (None, 1)]
    (fun obj row => obj_assign obj (text_or (fst row) "Unknown") (snd row))
    []
  = [("Unknown", 1)].
Proof.
  destruct C10_Unknown_bucket_overwritten as (_ & H & _).
  apply H. apply perm_swap.
Defined.

(* ================================================================== *)
(** * Further properties *)

(** ** The start-up call and the credential check *)

Section MoreCredentials.
Context {argon2 : Argon2}.

(** X1.  [initializeAdminUser] succeeds exactly when both [ADMIN_EMAIL]
    and [ADMIN_PASSWORD] are set to non-empty strings, and then appends one
    identity with that e-mail and the role [admin]; otherwise it throws
    [Admin credentials not configured], logs the error and registers
    nothing. *)
Theorem X1_initializeAdminUser_needs_both :
  forall salt w,
    if env_nonempty w "ADMIN_EMAIL" && env_nonempty w "ADMIN_PASSWORD" then
      exists e p w',
        assoc "ADMIN_EMAIL" (process_env w) = Some e /\
        assoc "ADMIN_PASSWORD" (process_env w) = Some p /\
        initializeAdminUser salt w = (Normal tt, w') /\
        adminUsers w' =
          adminUsers w ++ [AdminUser.make e (argon2_hash salt p) "admin"]
    else
      exists w',
        initializeAdminUser salt w
          = (Throw (Error "Admin credentials not configured"), w') /\
        adminUsers w' = adminUsers w /\
        log w' =
          log w ++ [LogError "Admin credentials not set in environment variables"].
Proof.
  intros salt w. unfold env_nonempty.
  assert (Fails :
    forall x y,
      env_var "ADMIN_EMAIL" w = (Normal x, w) ->
      env_var "ADMIN_PASSWORD" w = (Normal y, w) ->
      match x, y with
      | JStr e, JStr p => negb (truthy x) || negb (truthy y) = true
      | _, _ => True
      end ->
      exists w',
        initializeAdminUser salt w
          = (Throw (Error "Admin credentials not configured"), w') /\
        adminUsers w' = adminUsers w /\
        log w' =
          log w ++ [LogError "Admin credentials not set in environment variables"]).
  { intros x y Hx Hy C. eexists. unfold initializeAdminUser, bind.
    rewrite Hx, Hy.
    destruct x; try (split; [reflexivity | split; reflexivity]).
    destruct y; try (split; [reflexivity | split; reflexivity]).
    rewrite C. split; [reflexivity | split; reflexivity]. }
  assert (Hx : env_var "ADMIN_EMAIL" w =
               (Normal match assoc "ADMIN_EMAIL" (process_env w) with
                       | Some s => JStr s | None => JUndefined end, w))
    by reflexivity.
  assert (Hy : env_var "ADMIN_PASSWORD" w =
               (Normal match assoc "ADMIN_PASSWORD" (process_env w) with
                       | Some s => JStr s | None => JUndefined end, w))
    by reflexivity.
  destruct (assoc "ADMIN_EMAIL" (process_env w)) as [e|] eqn:He;
    destruct (assoc "ADMIN_PASSWORD" (process_env w)) as [p|] eqn:Hp;
    try (simpl; try rewrite andb_false_r; apply (Fails _ _ Hx Hy); exact I).
  destruct (String.eqb_spec e "") as [Ee|Ne];
    destruct (String.eqb_spec p "") as [Ep|Np]; simpl;
    try (apply (Fails _ _ Hx Hy); simpl; subst; simpl;
         rewrite ?orb_true_r; reflexivity).
  exists e, p. eexists. split; [reflexivity|]. split; [reflexivity|].
  split; [exact (initializeAdminUser_configured salt w He Hp Ne Np)|].
  reflexivity.
Qed.

(** X2.  [authenticate] never touches the registered identities, the
    environment, the table or the clock.  A principal it returns carries
    the presented e-mail and the role of a registered identity, and is
    returned without any change of state; the log grows only when [verify]
    rejects, by one entry, and then the answer is [null]. *)
Theorem X2_authenticate_frame :
  forall email password w,
    let r := fst (authenticate email password w) in
    let w' := snd (authenticate email password w) in
    adminUsers w' = adminUsers w /\
    process_env w' = process_env w /\
    search_queries w' = search_queries w /\
    clock w' = clock w /\
    (forall principal,
        r = Normal (Some principal) ->
        Principal.email principal = email /\
        w' = w /\
        exists user, In user (adminUsers w) /\
                     AdminUser.email user = email /\
                     Principal.role principal = AdminUser.role user) /\
    (log w' = log w \/
     exists err,
       log w' = log w ++ [LogErrorWith "Error during authentication:" err] /\
       r = Normal None).
Proof.
  intros email password w.
  destruct (find (fun u => AdminUser.email u =? email) (adminUsers w))
    as [user|] eqn:F.
  - rewrite (authenticate_known _ password _ F).
    pose proof (find_some _ _ F) as [I E]. apply String.eqb_eq in E.
    destruct (argon2_verify (AdminUser.password user) password) as [[|]|err];
      simpl; repeat (split; [reflexivity|]).
    + split; [|left; reflexivity].
      intros principal H. inversion H; subst principal. simpl.
      split; [exact E|]. split; [reflexivity|].
      exists user. auto.
    + split; [|left; reflexivity]. intros principal H. discriminate H.
    + split; [intros principal H; discriminate H|].
      right. exists err. split; reflexivity.
  - rewrite (authenticate_unknown _ password _ F). simpl.
    repeat (split; [reflexivity|]).
    split; [intros principal H; discriminate H | left; reflexivity].
Qed.

Lemma initialize_all_users :
  forall ids w,
    (forall id, In id ids -> snd (fst id) <> "" /\ snd id <> "") ->
    adminUsers (initialize_all ids w) =
      adminUsers w ++
      map (fun id => AdminUser.make (snd (fst id))
                       (argon2_hash (fst (fst id)) (snd id)) "admin") ids.
Proof.
  unfold initialize_all.
  induction ids as [|[[salt e] p] ids IH]; intros w H; simpl.
  - rewrite app_nil_r. reflexivity.
  - destruct (H (salt, e, p) (or_introl eq_refl)) as [Ne Np]. simpl in Ne, Np.
    rewrite (initializeAdminUser_with_env _ salt w Ne Np). cbn [snd].
    rewrite IH.
    + cbn [adminUsers]. rewrite <- app_assoc. reflexivity.
    + intros id I. apply H. right; exact I.
Qed.

Lemma find_registered :
  forall email ids,
    find (fun u => AdminUser.email u =? email)
         (map (fun id => AdminUser.make (snd (fst id))
                           (argon2_hash (fst (fst id)) (snd id)) "admin") ids)
    = option_map
        (fun id => AdminUser.make (snd (fst id))
                     (argon2_hash (fst (fst id)) (snd id)) "admin")
        (find (fun id => snd (fst id) =? email) ids).
Proof.
  intros email ids. induction ids as [|id ids IH]; simpl; [reflexivity|].
  destruct (snd (fst id) =? email); [reflexivity | exact IH].
Qed.

(** X3.  After any number of start-up calls on a process without
    identities, with a primitive that verifies a hash against exactly its
    password: [authenticate(e, p)] answers by the earliest credentials
    given for [e] alone, returning [{ email: e, role: 'admin' }] when
    their password is [p] and [null] when it is not or when [e] was never
    given; later credentials for the same e-mail are never consulted. *)
Theorem X3_earliest_identity_decides :
  Argon2Sound argon2 ->
  forall ids w e p,
    adminUsers w = [] ->
    (forall id, In id ids -> snd (fst id) <> "" /\ snd id <> "") ->
    authenticate e p (initialize_all ids w) =
      (Normal
         match find (fun id => snd (fst id) =? e) ids with
         | Some id => if snd id =? p then Some (Principal.make e "admin") else None
         | None => None
         end,
       initialize_all ids w).
Proof.
  intros Sound ids w e p E H.
  pose proof (initialize_all_users ids w H) as U. rewrite E in U. simpl in U.
  pose proof (find_registered e ids) as F. rewrite <- U in F.
  destruct (find (fun id => snd (fst id) =? e) ids) as [id|] eqn:G; simpl in F.
  - rewrite (authenticate_known _ p _ F). simpl. rewrite Sound.
    apply find_some in G. destruct G as [_ Ee]. apply String.eqb_eq in Ee.
    rewrite Ee. destruct (snd id =? p); reflexivity.
  - apply authenticate_unknown. exact F.
Qed.

End MoreCredentials.

Lemma X3_witness :
  authenticate (argon2 := plain_argon2) "a@example.com" "second"
    (initialize_all (argon2 := plain_argon2)
       [("s1", "a@example.com", "first"); ("s2", "b@example.com", "other");
        ("s3", "a@example.com", "second")] (store_of []))
  = (Normal None,
     initialize_all (argon2 := plain_argon2)
       [("s1", "a@example.com", "first"); ("s2", "b@example.com", "other");
        ("s3", "a@example.com", "second")] (store_of [])).
Proof.
  apply (@X3_earliest_identity_decides plain_argon2 plain_argon2_sound
           [("s1", "a@example.com", "first"); ("s2", "b@example.com", "other");
            ("s3", "a@example.com", "second")] (store_of [])
           "a@example.com" "second").
  - reflexivity.
  - intros id [<-|[<-|[<-|[]]]]; split; discriminate.
Defined.

(* ================================================================== *)
(** ** The guarded statistics route *)

Lemma checkAuth_frame :
  forall req w b w',
    checkAuth req w = (Normal b, w') ->
    process_env w' = process_env w /\
    adminUsers w' = adminUsers w /\
    search_queries w' = search_queries w /\
    clock w' = clock w /\
    exists entry, log w' = log w ++ [entry].
Proof.
  intros [s] w b w' H. destruct (truthy s) eqn:T.
  - destruct (checkAuth_runs s w T) as (a & j & p & u & ks & _ & _ & _ & _ & _ & E).
    simpl in E. rewrite E in H. inversion H; subst. simpl.
    repeat (split; [reflexivity|]). eexists. reflexivity.
  - rewrite (checkAuth_no_session s w T) in H. inversion H; subst. simpl.
    repeat (split; [reflexivity|]). eexists. reflexivity.
Qed.

(** The snapshot depends on the rows of the table alone. *)
Lemma computeSnapshot_rows_only :
  forall w w2 s,
    search_queries w2 = search_queries w ->
    computeSnapshot w = (Normal s, w) ->
    computeSnapshot w2 = (Normal s, w2).
Proof.
  intros w w2 s E R.
  destruct (computeSnapshot_returns w) as (s1 & R1 & T1 & ST1 & PF1 & TL1 & DR1 & RQ1).
  destruct (computeSnapshot_returns w2) as (s2 & R2 & T2 & ST2 & PF2 & TL2 & DR2 & RQ2).
  rewrite R in R1. inversion R1; subst s1. rewrite E in *.
  assert (S : s2 = s) by (destruct s, s2; simpl in *; congruence).
  rewrite R2, S. reflexivity.
Qed.

(** X4.  The route [GET /api/stats]: a request whose session carries a
    marker is answered with the snapshot of the table; any other request
    is answered 401 [{ error: 'Unauthorized' }], a response that holds
    nothing of the table, and the handler is not run.  Either way the
    table is left as it was. *)
Theorem X4_api_stats_guarded :
  forall req res w,
    (carries_marker (session req) ->
     exists data w',
       api_stats req res w
         = (Normal (res_json res (BodyStats true data (clock w))), w') /\
       computeSnapshot w = (Normal data, w) /\
       search_queries w' = search_queries w) /\
    (~ carries_marker (session req) ->
     exists w',
       api_stats req res w
         = (Normal (mkResponse 401 (location res) (Some (BodyError "Unauthorized"))),
            w') /\
       search_queries w' = search_queries w).
Proof.
  intros req res w.
  destruct (checkAuth_total req w) as (b & w' & H).
  destruct (checkAuth_frame _ _ H) as (_ & _ & Rows & Clock & _).
  assert (Iff : b = true <-> carries_marker (session req)).
  { destruct req as [s]. exact (checkAuth_true_iff_marker _ _ H). }
  split.
  - intros C. apply Iff in C. subst b.
    destruct (computeSnapshot_returns w) as (data & R & _).
    exists data, w'. split; [|split; [exact R | exact Rows]].
    unfold api_stats, requireAuth, bind. rewrite H.
    unfold stats_handler, bind, read, ret.
    rewrite (@computeSnapshot_rows_only w w' data Rows R), Clock. reflexivity.
  - intros C. destruct b; [exfalso; apply C, Iff; reflexivity|].
    exists w'. split; [|exact Rows].
    unfold api_stats, requireAuth, bind. rewrite H. reflexivity.
Qed.

Lemma X4_witness :
  exists w',
    api_stats (mkRequest (JObj [("cookie", JObj [])])) (mkResponse 200 None None)
              (store_of scenario)
      = (Normal (mkResponse 401 None (Some (BodyError "Unauthorized"))), w') /\
    search_queries w' = scenario.
Proof.
  destruct (X4_api_stats_guarded (mkRequest (JObj [("cookie", JObj [])]))
              (mkResponse 200 None None) (store_of scenario)) as [_ H].
  apply H. intros (path & v & I & L & _).
  simpl in I. destruct I as [<-|[<-|[<-|[]]]]; discriminate L.
Defined.

(* ================================================================== *)
(** ** Counts add up *)

Section Sums.
Variables (A K : Type).
Variable K_eqb : K -> K -> bool.

Lemma sum_counts_app :
  forall l1 l2 : list (K * nat),
    sum_counts (l1 ++ l2) = sum_counts l1 + sum_counts l2.
Proof.
  intros l1 l2. unfold sum_counts. rewrite map_app. apply list_sum_app.
Qed.

Lemma sum_counts_Permutation :
  forall l1 l2 : list (K * nat),
    Permutation l1 l2 -> sum_counts l1 = sum_counts l2.
Proof.
  intros l1 l2 P. unfold sum_counts.
  induction P; simpl; try lia.
Qed.

Lemma sum_counts_bump :
  forall gs k, sum_counts (bump K_eqb k gs) = S (sum_counts gs).
Proof.
  unfold sum_counts.
  induction gs as [|[x n] gs IH]; intros k; simpl; [reflexivity|].
  destruct (K_eqb k x); simpl; [reflexivity|]. rewrite IH. lia.
Qed.

(** The groups of a table hold all of its rows. *)
Lemma sum_counts_group_count :
  forall (key : A -> K) rows,
    sum_counts (group_count K_eqb key rows) = List.length rows.
Proof.
  intros key rows. unfold group_count.
  assert (G : forall acc,
             sum_counts (fold_left (fun gs r => bump K_eqb (key r) gs) rows acc)
             = sum_counts acc + List.length rows).
  { induction rows as [|r rows IH]; intros acc; simpl; [lia|].
    rewrite IH, sum_counts_bump. lia. }
  rewrite G. reflexivity.
Qed.

End Sums.




Lemma count_if_length :
  forall (A : Type) (p : A -> bool) l, count_if p l <= List.length l.
Proof.
  intros A p l. induction l as [|x l IH]; simpl; [lia|].
  destruct (p x); lia.
Qed.

(** X5.  The timeline holds every record exactly once: its counts add up
    to [total]; and its days are pairwise distinct and in ascending order,
    the entry of the records without [created_at] coming last. *)
Theorem X5_timeline_adds_up :
  forall w, exists s,
    computeSnapshot w = (Normal s, w) /\
    sum_counts (timelineData s) = total s /\
    NoDup (map fst (timelineData s)) /\
    StronglySorted (fun g1 g2 => null_last_leb (fst g1) (fst g2) = true)
                   (timelineData s).
Proof.
  intros w.
  destruct (computeSnapshot_returns w) as (s & R & T & _ & _ & TL & _ & _).
  exists s. split; [exact R|]. rewrite TL, T. split; [|split].
  - rewrite (sum_counts_Permutation
               (order_by_Permutation
                  (fun g1 g2 : option Z * nat => null_last_leb (fst g1) (fst g2)) _)).
    apply sum_counts_group_count.
  - eapply Permutation_NoDup.
    + apply Permutation_map. apply Permutation_sym. apply order_by_Permutation.
    + apply NoDup_keys_group_count. exact date_eqb_spec.
  - apply (@order_by_sorted _
             (fun g1 g2 : option Z * nat => null_last_leb (fst g1) (fst g2))).
    + intros x y. apply null_last_leb_total.
    + intros x y z. apply null_last_leb_trans.
Qed.

(** A key of the groups is the key of some row. *)
Lemma group_count_key_row :
  forall (A : Type) (key : A -> option string) rows x,
    In x (map fst (group_count (option_eqb String.eqb) key rows)) ->
    exists r, In r rows /\ key r = x.
Proof.
  intros A key rows x I. apply in_map_iff in I. destruct I as ([y n] & E & I).
  simpl in E. subst y. apply group_count_In in I. destruct I as [En Pn].
  rewrite En in Pn. apply count_if_witness in Pn. destruct Pn as (r & Ir & T).
  exists r. split; [exact Ir|].
  destruct (text_eqb_spec x (key r)); [congruence | discriminate].
Qed.

(** The labels that are keys of a breakdown: those of the rows, apart from
    [__proto__]. *)
Lemma breakdown_is_key :
  forall (A : Type) (key : A -> option string) (label : option string -> string) rows k,
    (exists n,
        obj_get String.eqb
          (forEach (group_count (option_eqb String.eqb) key rows)
             (fun (obj : list (string * nat)) (row : option string * nat) =>
                obj_assign obj (label (fst row)) (snd row)) []) k = Some n)
    <-> k <> "__proto__" /\ exists r, In r rows /\ label (key r) = k.
Proof.
  intros A key label rows k. split.
  - intros [n G]. split.
    + intros ->. rewrite breakdown_no_proto in G; [discriminate G | reflexivity].
    + destruct (@breakdown_entry_origin label _ _ _ _ G) as [(x & I & L)|G0];
        [|discriminate G0].
      destruct (@group_count_key_row _ key rows x) as (r & Ir & Er);
        [apply (in_map fst) in I; exact I|].
      exists r. split; [exact Ir | congruence].
  - intros (NP & r & Ir & <-).
    pose proof (@In_group_count _ key _ _ Ir) as G.
    exact (@breakdown_group_labelled label _ [] _ _ G NP).
Qed.

(** A label behind which stands one key only holds the number of the rows
    filed under it. *)
Lemma breakdown_exact_key :
  forall (A : Type) (key : A -> option string) (label : option string -> string) rows k,
    (forall r r', In r rows -> In r' rows ->
                  label (key r) = k -> label (key r') = k -> key r = key r') ->
    obj_get String.eqb
      (forEach (group_count (option_eqb String.eqb) key rows)
         (fun (obj : list (string * nat)) (row : option string * nat) =>
            obj_assign obj (label (fst row)) (snd row)) []) k
    = if k =? "__proto__" then None
      else let n := count_if (fun r => label (key r) =? k) rows in
           if Nat.eqb n 0 then None else Some n.
Proof.
  intros A key label rows k One.
  destruct (String.eqb_spec k "__proto__") as [->|NP].
  { apply breakdown_no_proto. reflexivity. }
  cbv zeta.
  destruct (count_if (fun r => label (key r) =? k) rows) as [|c] eqn:C; simpl.
  - destruct (obj_get String.eqb (forEach _ _ []) k) as [v|] eqn:G; [|reflexivity].
    exfalso.
    destruct (proj1 (breakdown_is_key key label rows k) (ex_intro _ v G))
      as (_ & r & Ir & Lr).
    assert (P : 1 <= count_if (fun r => label (key r) =? k) rows).
    { apply count_if_pos with (x := r); [exact Ir|].
      rewrite Lr. apply String.eqb_refl. }
    lia.
  - assert (P : 1 <= count_if (fun r => label (key r) =? k) rows) by lia.
    apply count_if_witness in P. destruct P as (r & Ir & Lr).
    apply String.eqb_eq in Lr.
    destruct (proj2 (breakdown_is_key key label rows k)) as [v Hv].
    { split; [exact NP|]. exists r. split; [exact Ir | exact Lr]. }
    rewrite Hv. f_equal. rewrite <- C.
    destruct (@breakdown_entry_origin label _ _ _ _ Hv) as [(x & I & L)|G0];
      [|discriminate G0].
    destruct (@group_count_key_row _ key rows x) as (r' & Ir' & Er');
      [apply (in_map fst) in I; exact I|].
    apply group_count_In in I. destruct I as [En _]. rewrite En.
    apply count_if_ext. intros r0 I0. subst x.
    destruct (text_eqb_spec (key r') (key r0)) as [E|D].
    + symmetry. apply String.eqb_eq. rewrite <- E. exact L.
    + symmetry. apply String.eqb_neq. intros E. apply D.
      apply One; assumption.
Qed.



Lemma NoDup_map_on :
  forall (A B : Type) (f : A -> B) (l : list A),
    (forall x y, In x l -> In y l -> f x = f y -> x = y) ->
    NoDup l -> NoDup (map f l).
Proof.
  intros A B f l. induction l as [|a l IH]; intros Inj ND; simpl; [constructor|].
  inversion ND as [|? ? Ha ND']; subst. constructor.
  - intros I. apply in_map_iff in I. destruct I as (b & E & Ib).
    assert (b = a) by (apply Inj; [right; exact Ib | left; reflexivity | exact E]).
    subst b. contradiction.
  - apply IH; [|exact ND'].
    intros x y Ix Iy. apply Inj; right; assumption.
Qed.

(** The loop of the handler writes the groups whose label is not
    [__proto__], each under its label. *)
Lemma forEach_relabel :
  forall (label : option string -> string) gs acc,
    forEach gs (fun (obj : list (string * nat)) (row : option string * nat) =>
                  obj_assign obj (label (fst row)) (snd row)) acc
    = forEach (map (fun row => (label (fst row), snd row))
                   (filter (fun row => negb (label (fst row) =? "__proto__")) gs))
        (fun (obj : list (string * nat)) (row : string * nat) =>
           obj_set String.eqb obj (fst row) (snd row)) acc.
Proof.
  intros label. unfold forEach.
  induction gs as [|g gs IH]; intros acc; simpl; [reflexivity|].
  unfold obj_assign at 2.
  destruct (label (fst g) =? "__proto__"); simpl; apply IH.
Qed.

Lemma sum_counts_filter_split :
  forall (K : Type) (p : K * nat -> bool) (gs : list (K * nat)),
    sum_counts gs
    = sum_counts (filter p gs) + sum_counts (filter (fun g => negb (p g)) gs).
Proof.
  intros K p gs. unfold sum_counts.
  induction gs as [|g gs IH]; simpl; [reflexivity|].
  destruct (p g); simpl; lia.
Qed.

(** The groups of one key hold the count of that key. *)
Lemma sum_counts_filter_key :
  forall (gs : list (option string * nat)) x,
    NoDup (map fst gs) ->
    sum_counts (filter (fun g => option_eqb String.eqb x (fst g)) gs)
    = match obj_get (option_eqb String.eqb) gs x with Some n => n | None => 0 end.
Proof.
  unfold sum_counts.
  induction gs as [|[y n] gs IH]; intros x ND; simpl; [reflexivity|].
  inversion ND as [|? ? Hy ND']; subst.
  destruct (text_eqb_spec x y) as [->|D]; simpl.
  - rewrite IH by exact ND'.
    destruct (obj_get (option_eqb String.eqb) gs y) as [v|] eqn:G; [|lia].
    exfalso. apply Hy. apply (obj_get_In _ text_eqb_spec) in G.
    apply (in_map fst) in G. exact G.
  - apply IH. exact ND'.
Qed.

Lemma text_or_proto :
  forall x, (text_or x "Unknown" =? "__proto__")
            = option_eqb String.eqb (Some "__proto__") x.
Proof.
  intros [s|]; simpl; [|reflexivity].
  destruct (String.eqb_spec s "") as [->|D]; [reflexivity|].
  apply String.eqb_sym.
Qed.

Lemma NoDup_map_filter :
  forall (A B : Type) (f : A -> B) (p : A -> bool) l,
    NoDup (map f l) -> NoDup (map f (filter p l)).
Proof.
  intros A B f p l. induction l as [|a l IH]; intros ND; simpl; [constructor|].
  inversion ND as [|? ? Ha ND']; subst.
  destruct (p a); simpl; [|exact (IH ND')].
  constructor; [|exact (IH ND')].
  intros I. apply Ha. apply in_map_iff in I. destruct I as (b & E & Ib).
  apply filter_In in Ib. rewrite <- E. apply in_map. apply Ib.
Qed.

(** X7.  When no two search types that occur share a label (at most one
    of absent, empty and [Unknown] occurs), [searchTypeBreakdown] is
    exact on every label but [__proto__]: a label holds the number of
    records filed under it, labels without records are no keys, and
    [__proto__] is no key; the values add up to [total] less the number of
    records whose search type is [__proto__]. *)
Theorem X7_distinct_labels_exact :
  forall w,
    (forall r r',
        In r (search_queries w) -> In r' (search_queries w) ->
        label_of (Row.search_type r) = label_of (Row.search_type r') ->
        Row.search_type r = Row.search_type r') ->
    exists s,
      computeSnapshot w = (Normal s, w) /\
      (forall k,
          obj_get String.eqb (searchTypeBreakdown s) k =
            if k =? "__proto__" then None
            else
              let n := count_if (fun r => label_of (Row.search_type r) =? k)
                                (search_queries w) in
              if Nat.eqb n 0 then None else Some n) /\
      sum_counts (searchTypeBreakdown s)
        + count_if (has_search_type (Some "__proto__")) (search_queries w)
      = total s.
Proof.
  intros w Inj.
  destruct (computeSnapshot_returns w) as (s & R & T & ST & _ & _ & _ & _).
  exists s. split; [exact R|]. split.
  - intros k. rewrite ST.
    apply (breakdown_exact_key Row.search_type (fun x => text_or x "Unknown")).
    intros r r' Ir Ir' L L'. apply Inj; [exact Ir | exact Ir'|].
    unfold label_of. congruence.
  - set (gs := group_count (option_eqb String.eqb) Row.search_type (search_queries w)) in *.
    assert (ND : NoDup (map fst gs))
      by (apply NoDup_keys_group_count; exact text_eqb_spec).
    rewrite ST, T, (forEach_relabel (fun x => text_or x "Unknown")).
    rewrite (@forEach_obj_set_distinct _ _ String.eqb_spec).
    + simpl.
      assert (E : sum_counts
                    (map (fun row : option string * nat =>
                            (text_or (fst row) "Unknown", snd row))
                         (filter (fun row => negb (text_or (fst row) "Unknown" =? "__proto__"))
                                 gs))
                  = sum_counts
                      (filter (fun g => negb (option_eqb String.eqb (Some "__proto__") (fst g)))
                              gs)).
      { unfold sum_counts. rewrite map_map. simpl. f_equal. f_equal.
        apply filter_ext. intros g. rewrite text_or_proto. reflexivity. }
      rewrite E.
      assert (C : count_if (has_search_type (Some "__proto__")) (search_queries w)
                  = sum_counts
                      (filter (fun g => option_eqb String.eqb (Some "__proto__") (fst g)) gs)).
      { rewrite (@sum_counts_filter_key gs (Some "__proto__") ND). unfold gs.
        rewrite (obj_get_group_count _ text_eqb_spec). cbv zeta.
        unfold has_search_type.
        destruct (count_if _ (search_queries w)); reflexivity. }
      rewrite C, Nat.add_comm.
      rewrite <- (sum_counts_filter_split
                    (fun g => option_eqb String.eqb (Some "__proto__") (fst g)) gs).
      exact (sum_counts_group_count (option_eqb String.eqb) Row.search_type
                                    (search_queries w)).
    + simpl. rewrite map_map. simpl.
      rewrite <- (map_map fst (fun x => text_or x "Unknown")).
      apply NoDup_map_on; [|apply NoDup_map_filter; exact ND].
      intros x y Ix Iy E.
      apply in_map_iff in Ix. destruct Ix as (gx & <- & Ix). apply filter_In in Ix.
      apply in_map_iff in Iy. destruct Iy as (gy & <- & Iy). apply filter_In in Iy.
      destruct (@group_count_key_row _ Row.search_type (search_queries w) (fst gx))
        as (r & Ir & Er); [apply in_map; apply Ix|].
      destruct (@group_count_key_row _ Row.search_type (search_queries w) (fst gy))
        as (r' & Ir' & Er'); [apply in_map; apply Iy|].
      rewrite <- Er, <- Er'. apply Inj; [exact Ir | exact Ir'|].
      unfold label_of. rewrite Er, Er'. exact E.
Qed.

Lemma X7_witness :
  exists s,
    computeSnapshot (store_of proto_type) = (Normal s, store_of proto_type) /\
    obj_get String.eqb (searchTypeBreakdown s) "job" = Some 1 /\
    obj_get String.eqb (searchTypeBreakdown s) "__proto__" = None /\
    sum_counts (searchTypeBreakdown s) + 1 = total s.
Proof.
  destruct (X7_distinct_labels_exact (store_of proto_type)) as (s & R & K & S).
  - intros r r' [<-|[<-|[]]] [<-|[<-|[]]]; simpl; intros E;
      try reflexivity; discriminate E.
  - exists s. split; [exact R|]. split; [exact (K "job")|].
    split; [exact (K "__proto__") | exact S].
Defined.

(* ================================================================== *)
(** ** The date range *)

Section Extremum.
Variable pick : Z -> Z -> Z.
Variable R : Z -> Z -> Prop.
Hypothesis pick_one : forall a b, pick a b = a \/ pick a b = b.
Hypothesis pick_l : forall a b, R (pick a b) a.
Hypothesis pick_r : forall a b, R (pick a b) b.
Hypothesis R_refl : forall a, R a a.
Hypothesis R_trans : forall a b c, R a b -> R b c -> R a c.

Local Notation "'extremum'" :=
  (fold_left (fun acc x => match acc, x with
                           | None, _ => x
                           | _, None => acc
                           | Some a, Some b => Some (pick a b)
                           end)) (only parsing).

Lemma extremum_none :
  forall col acc,
    extremum col acc = None <-> acc = None /\ forall x, In x col -> x = None.
Proof.
  induction col as [|x col IH]; intros acc; simpl.
  - split; [intros ->; split; [reflexivity | intros x []] | intros [-> _]; reflexivity].
  - rewrite IH. destruct acc as [a|], x as [b|]; split; intros [E H];
      try discriminate E.
    + discriminate (H (Some b) (or_introl eq_refl)).
    + split; [reflexivity|]. intros y [<-|I]; [reflexivity | exact (H y I)].
    + split; [reflexivity|]. intros y I. apply H. right; exact I.
Qed.

Lemma extremum_some :
  forall col acc m,
    extremum col acc = Some m ->
    (acc = Some m \/ In (Some m) col) /\
    (forall a, acc = Some a -> R m a) /\
    (forall x, In (Some x) col -> R m x).
Proof.
  induction col as [|x col IH]; intros acc m H; simpl in H.
  - subst acc. split; [left; reflexivity|]. split.
    + intros a E. inversion E; subst. apply R_refl.
    + intros x [].
  - apply IH in H. destruct H as (Att & Acc & Col).
    destruct acc as [a|], x as [b|]; simpl.
    + split; [|split].
      * destruct Att as [E|I]; [|right; right; exact I].
        inversion E as [E']. destruct (pick_one a b) as [P|P]; rewrite P.
        -- left; reflexivity.
        -- right; left; reflexivity.
      * intros a' E. inversion E; subst a'.
        eapply R_trans; [apply (Acc _ eq_refl) | apply pick_l].
      * intros y [E|I]; [|exact (Col y I)]. inversion E; subst y.
        eapply R_trans; [apply (Acc _ eq_refl) | apply pick_r].
    + split; [|split].
      * destruct Att as [E|I]; [left; exact E | right; right; exact I].
      * exact Acc.
      * intros y [E|I]; [discriminate E | exact (Col y I)].
    + split; [|split].
      * destruct Att as [E|I]; [right; left; exact E | right; right; exact I].
      * intros a' E. discriminate E.
      * intros y [E|I]; [|exact (Col y I)]. inversion E; subst y.
        apply (Acc _ eq_refl).
    + split; [|split].
      * destruct Att as [E|I]; [discriminate E | right; right; exact I].
      * intros a' E. discriminate E.
      * intros y [E|I]; [discriminate E | exact (Col y I)].
Qed.
End Extremum.

Lemma sql_MIN_spec :
  forall col,
    (sql_MIN col = None <-> forall x, In x col -> x = None) /\
    (forall m, sql_MIN col = Some m ->
               In (Some m) col /\ forall x, In (Some x) col -> (m <= x)%Z).
Proof.
  intros col. unfold sql_MIN. split.
  - rewrite extremum_none. intuition.
  - intros m H.
    apply (@extremum_some Z.min Z.le) in H.
    + destruct H as ([E|I] & _ & C); [discriminate E | auto].
    + intros a b. destruct (Z.min_spec a b) as [[_ ->]|[_ ->]]; auto.
    + intros a b. apply Z.le_min_l.
    + intros a b. apply Z.le_min_r.
    + intros a. apply Z.le_refl.
    + intros a b c. apply Z.le_trans.
Qed.

Lemma sql_MAX_spec :
  forall col,
    (sql_MAX col = None <-> forall x, In x col -> x = None) /\
    (forall m, sql_MAX col = Some m ->
               In (Some m) col /\ forall x, In (Some x) col -> (x <= m)%Z).
Proof.
  intros col. unfold sql_MAX. split.
  - rewrite extremum_none. intuition.
  - intros m H.
    apply (@extremum_some Z.max Z.ge) in H.
    + destruct H as ([E|I] & _ & C); [discriminate E|].
      split; [exact I|]. intros x Ix. apply Z.ge_le. apply C. exact Ix.
    + intros a b. destruct (Z.max_spec a b) as [[_ ->]|[_ ->]]; auto.
    + intros a b. apply Z.le_ge. apply Z.le_max_l.
    + intros a b. apply Z.le_ge. apply Z.le_max_r.
    + intros a. apply Z.le_ge. apply Z.le_refl.
    + intros a b c H1 H2. apply Z.le_ge. apply Z.ge_le in H1, H2.
      eapply Z.le_trans; eassumption.
Qed.

(** X8.  [dateRange] is [{ earliest: null, latest: null }] exactly when no
    record has a [created_at] (an empty table, or NULL in every row).
    Otherwise [earliest] and [latest] are the [created_at] of stored
    records, [earliest] is not after [latest], and the [created_at] of
    every record lies between them. *)
Theorem X8_dateRange_bounds :
  forall w, exists s,
    computeSnapshot w = (Normal s, w) /\
    ((forall r, In r (search_queries w) -> Row.created_at r = None) ->
     dateRange s = mkDateRange JNull JNull) /\
    (forall r0 t0,
        In r0 (search_queries w) -> Row.created_at r0 = Some t0 ->
        exists lo hi,
          dateRange s = mkDateRange (JDate lo) (JDate hi) /\
          (lo <= hi)%Z /\
          (exists r, In r (search_queries w) /\ Row.created_at r = Some lo) /\
          (exists r, In r (search_queries w) /\ Row.created_at r = Some hi) /\
          forall r t, In r (search_queries w) -> Row.created_at r = Some t ->
                      (lo <= t <= hi)%Z).
Proof.
  intros w.
  destruct (computeSnapshot_returns w) as (s & R & _ & _ & _ & _ & DR & _).
  exists s. split; [exact R|]. rewrite DR.
  destruct (sql_MIN_spec (map Row.created_at (search_queries w))) as [MinN MinS].
  destruct (sql_MAX_spec (map Row.created_at (search_queries w))) as [MaxN MaxS].
  split.
  - intros H.
    assert (N : forall x, In x (map Row.created_at (search_queries w)) -> x = None).
    { intros x I. apply in_map_iff in I. destruct I as (r & <- & Ir). exact (H r Ir). }
    apply MinN in N as N1. apply MaxN in N as N2. rewrite N1, N2. reflexivity.
  - intros r0 t0 I0 E0.
    assert (I : In (Some t0) (map Row.created_at (search_queries w))).
    { rewrite <- E0. apply in_map. exact I0. }
    destruct (sql_MIN (map Row.created_at (search_queries w))) as [lo|] eqn:Lo.
    2:{ assert (N := proj1 MinN eq_refl _ I). discriminate N. }
    destruct (sql_MAX (map Row.created_at (search_queries w))) as [hi|] eqn:Hi.
    2:{ assert (N := proj1 MaxN eq_refl _ I). discriminate N. }
    destruct (MinS lo eq_refl) as [Ilo Blo].
    destruct (MaxS hi eq_refl) as [Ihi Bhi].
    exists lo, hi. split; [reflexivity|].
    split; [specialize (Blo t0 I); specialize (Bhi t0 I); lia|].
    split; [|split].
    + apply in_map_iff in Ilo. destruct Ilo as (r & E & Ir). eauto.
    + apply in_map_iff in Ihi. destruct Ihi as (r & E & Ir). eauto.
    + intros r t Ir Et.
      assert (It : In (Some t) (map Row.created_at (search_queries w))).
      { rewrite <- Et. apply in_map. exact Ir. }
      split; [exact (Blo t It) | exact (Bhi t It)].
Qed.

Lemma X8_witness :
  exists s,
    computeSnapshot (store_of scenario) = (Normal s, store_of scenario) /\
    exists lo hi,
      dateRange s = mkDateRange (JDate lo) (JDate hi) /\
      (lo <= hi)%Z /\
      forall r t, In r scenario -> Row.created_at r = Some t -> (lo <= t <= hi)%Z.
Proof.
  destruct (X8_dateRange_bounds (store_of scenario)) as (s & R & _ & H).
  exists s. split; [exact R|].
  destruct (H (Row.make 1 None (Some "web") (Some "job") (Some (day 19723)))
              (day 19723)) as (lo & hi & D & L & _ & _ & B);
    [left; reflexivity | reflexivity |].
  exists lo, hi. split; [exact D|]. split; [exact L | exact B].
Defined.

(* ================================================================== *)
(** ** The ten most recent *)

Lemma StronglySorted_app_cross :
  forall (A : Type) (R : A -> A -> Prop) l1 l2,
    StronglySorted R (l1 ++ l2) ->
    forall a b, In a l1 -> In b l2 -> R a b.
Proof.
  intros A R l1. induction l1 as [|x l1 IH]; intros l2 S a b Ia Ib; [contradiction|].
  simpl in S. inversion S as [|? ? S' F]; subst.
  destruct Ia as [<-|Ia].
  - rewrite Forall_forall in F. apply F. apply in_or_app. right; exact Ib.
  - exact (IH _ S' _ _ Ia Ib).
Qed.

(** X9.  [recentQueries] lists the most recent records: the table splits
    into the records listed and the records left out, at most ten are
    listed and none is left out while fewer than ten are listed, and no
    record left out is more recent than a listed one.  A record without
    [created_at] counts as more recent than any dated one.  When the ids
    of the table are distinct, so are the ids listed. *)
Theorem X9_recentQueries_most_recent :
  forall w, exists s listed left_out,
    computeSnapshot w = (Normal s, w) /\
    Permutation (listed ++ left_out) (search_queries w) /\
    recentQueries s =
      map (fun r => RecentQuery.make (JNum (Row.id r)) (js_of_text (Row.keyword r))
                      (js_of_text (Row.search_type r)) JUndefined
                      (js_of_timestamp (Row.created_at r))) listed /\
    List.length listed = Nat.min 10 (total s) /\
    (forall a b, In a listed -> In b left_out -> created_at_desc a b) /\
    (NoDup (map Row.id (search_queries w)) ->
     NoDup (map RecentQuery.id (recentQueries s))).
Proof.
  intros w.
  destruct (computeSnapshot_returns w) as (s & R & T & _ & _ & _ & _ & RQ).
  set (sorted := order_by (fun r1 r2 => null_last_leb (Row.created_at r2) (Row.created_at r1))
                          (search_queries w)) in *.
  exists s, (firstn 10 sorted), (skipn 10 sorted).
  assert (P : Permutation (firstn 10 sorted ++ skipn 10 sorted) (search_queries w)).
  { rewrite firstn_skipn. apply order_by_Permutation. }
  split; [exact R|]. split; [exact P|]. split; [exact RQ|].
  split; [|split].
  - rewrite T, length_firstn. unfold sorted. rewrite order_by_length. reflexivity.
  - apply (@StronglySorted_app_cross _ created_at_desc).
    rewrite firstn_skipn.
    apply (@order_by_sorted _
             (fun r1 r2 => null_last_leb (Row.created_at r2) (Row.created_at r1))).
    + intros x y. apply null_last_leb_total.
    + intros x y z H1 H2. exact (null_last_leb_trans _ _ _ H2 H1).
  - intros ND. rewrite RQ, map_map. simpl.
    rewrite <- (map_map Row.id JNum).
    apply NoDup_map_on; [intros x y _ _ E; inversion E; reflexivity|].
    assert (ND' : NoDup (map Row.id (firstn 10 sorted ++ skipn 10 sorted))).
    { eapply Permutation_NoDup; [|exact ND].
      apply Permutation_map. apply Permutation_sym. exact P. }
    rewrite map_app in ND'. exact (NoDup_app_remove_r _ _ ND').
Qed.

Lemma X9_witness :
  exists s, computeSnapshot (store_of scenario) = (Normal s, store_of scenario) /\
            NoDup (map RecentQuery.id (recentQueries s)).
Proof.
  destruct (X9_recentQueries_most_recent (store_of scenario))
    as (s & listed & left_out & R & _ & _ & _ & _ & H).
  exists s. split; [exact R|]. apply H. simpl.
  repeat (constructor; [simpl; intuition discriminate|]). constructor.
Defined.
(* ================================================================== *)
(** ** The same records in another order *)

Lemma count_if_Permutation :
  forall (A : Type) (p : A -> bool) l l',
    Permutation l l' -> count_if p l = count_if p l'.
Proof.
  intros A p l l' P. induction P; simpl; lia.
Qed.

Lemma filter_Permutation :
  forall (A : Type) (p : A -> bool) l l',
    Permutation l l' -> Permutation (filter p l) (filter p l').
Proof.
  intros A p l l' P. induction P; simpl.
  - apply perm_nil.
  - destruct (p x); [apply perm_skip|]; exact IHP.
  - destruct (p x), (p y); try apply perm_swap; apply Permutation_refl.
  - eapply perm_trans; eassumption.
Qed.

Section GroupsUpToOrder.
Variables (A K : Type).
Variable K_eqb : K -> K -> bool.
Hypothesis K_eqb_spec : forall a b, reflect (a = b) (K_eqb a b).

(** Groups are determined, up to their order, by the count of each key. *)
Lemma groups_Permutation :
  forall l1 l2 : list (K * nat),
    NoDup (map fst l1) -> NoDup (map fst l2) ->
    (forall k, obj_get K_eqb l1 k = obj_get K_eqb l2 k) ->
    Permutation l1 l2.
Proof.
  intros l1 l2 N1 N2 H. apply NoDup_Permutation.
  - exact (NoDup_map_inv _ _ N1).
  - exact (NoDup_map_inv _ _ N2).
  - intros [k v]. split; intros I.
    + apply (obj_get_In _ K_eqb_spec). rewrite <- H.
      apply (In_obj_get _ K_eqb_spec); assumption.
    + apply (obj_get_In _ K_eqb_spec). rewrite H.
      apply (In_obj_get _ K_eqb_spec); assumption.
Qed.

Lemma group_count_Permutation :
  forall (key : A -> K) rows rows',
    Permutation rows rows' ->
    Permutation (group_count K_eqb key rows) (group_count K_eqb key rows').
Proof.
  intros key rows rows' P.
  apply groups_Permutation; try (apply NoDup_keys_group_count; exact K_eqb_spec).
  intros k. rewrite !(obj_get_group_count _ K_eqb_spec). cbv zeta.
  rewrite (count_if_Permutation _ P). reflexivity.
Qed.

Lemma NoDup_keys_In_eq :
  forall (l : list (K * nat)) k v v',
    NoDup (map fst l) -> In (k, v) l -> In (k, v') l -> v = v'.
Proof.
  intros l k v v' ND I I'.
  apply (In_obj_get _ K_eqb_spec) in I; [|exact ND].
  apply (In_obj_get _ K_eqb_spec) in I'; [|exact ND].
  congruence.
Qed.
End GroupsUpToOrder.

(** A list in order is the only arrangement in order of its elements,
    when no two of them are equivalent. *)
Lemma sorted_Permutation_eq :
  forall (A : Type) (R : A -> A -> Prop) (l1 l2 : list A),
    (forall x y, In x l1 -> In y l1 -> R x y -> R y x -> x = y) ->
    StronglySorted R l1 -> StronglySorted R l2 -> Permutation l1 l2 ->
    l1 = l2.
Proof.
  intros A R. induction l1 as [|a l1 IH]; intros l2 Anti S1 S2 P.
  - apply Permutation_nil in P. congruence.
  - destruct l2 as [|b l2].
    { apply Permutation_sym, Permutation_nil in P. discriminate P. }
    inversion S1 as [|? ? S1' F1]; subst.
    inversion S2 as [|? ? S2' F2]; subst.
    rewrite Forall_forall in F1, F2.
    assert (E : a = b).
    { assert (Ia : In a (b :: l2))
        by (eapply Permutation_in; [exact P | left; reflexivity]).
      assert (Ib : In b (a :: l1))
        by (eapply Permutation_in; [apply Permutation_sym; exact P | left; reflexivity]).
      destruct Ia as [Ea|Ia]; [congruence|].
      destruct Ib as [Eb|Ib]; [congruence|].
      apply Anti; [left; reflexivity | right; exact Ib | exact (F1 _ Ib) | exact (F2 _ Ia)]. }
    subst b. f_equal. apply IH.
    + intros x y Ix Iy. apply Anti; right; assumption.
    + exact S1'.
    + exact S2'.
    + exact (Permutation_cons_inv P).
Qed.

Lemma StronglySorted_map :
  forall (A B : Type) (f : A -> B) (R : B -> B -> Prop) l,
    StronglySorted (fun a b => R (f a) (f b)) l -> StronglySorted R (map f l).
Proof.
  intros A B f R l S. induction S as [|a l S IH F]; simpl; constructor.
  - exact IH.
  - rewrite Forall_forall in *. intros y Iy.
    apply in_map_iff in Iy. destruct Iy as (x & <- & Ix). exact (F x Ix).
Qed.

Lemma NoDup_map_In_eq :
  forall (A B : Type) (f : A -> B) l x y,
    NoDup (map f l) -> In x l -> In y l -> f x = f y -> x = y.
Proof.
  intros A B f l. induction l as [|a l IH]; intros x y ND Ix Iy E; [contradiction|].
  simpl in ND. inversion ND as [|? ? Ha ND']; subst.
  destruct Ix as [<-|Ix], Iy as [<-|Iy].
  - reflexivity.
  - exfalso. apply Ha. rewrite E. apply in_map. exact Iy.
  - exfalso. apply Ha. rewrite <- E. apply in_map. exact Ix.
  - exact (IH x y ND' Ix Iy E).
Qed.

Lemma null_last_leb_antisym :
  forall a b, null_last_leb a b = true -> null_last_leb b a = true -> a = b.
Proof.
  intros [x|] [y|]; simpl; intros H1 H2; try congruence.
  apply Z.leb_le in H1, H2. f_equal. lia.
Qed.

(** The timeline is the same for every order of the rows: its query
    orders the groups, and no two groups have the same day. *)
Lemma timeline_order_independent :
  forall rows rows' : list Row.t,
    Permutation rows rows' ->
    order_by (fun g1 g2 : option Z * nat => null_last_leb (fst g1) (fst g2))
      (group_count (option_eqb Z.eqb) (fun r => sql_DATE (Row.created_at r)) rows')
    = order_by (fun g1 g2 : option Z * nat => null_last_leb (fst g1) (fst g2))
        (group_count (option_eqb Z.eqb) (fun r => sql_DATE (Row.created_at r)) rows).
Proof.
  intros rows rows' P.
  apply sorted_Permutation_eq
    with (R := fun g1 g2 : option Z * nat => null_last_leb (fst g1) (fst g2) = true).
  - intros [k v] [k' v'] Ix Iy H1 H2. simpl in H1, H2.
    pose proof (null_last_leb_antisym _ _ H1 H2) as E. subst k'.
    f_equal.
    apply (@NoDup_keys_In_eq _ _ date_eqb_spec
             (group_count (option_eqb Z.eqb) (fun r => sql_DATE (Row.created_at r)) rows')
             k).
    + apply NoDup_keys_group_count. exact date_eqb_spec.
    + eapply Permutation_in; [apply order_by_Permutation | exact Ix].
    + eapply Permutation_in; [apply order_by_Permutation | exact Iy].
  - apply order_by_sorted; [intros x y; apply null_last_leb_total|].
    intros x y z. apply null_last_leb_trans.
  - apply order_by_sorted; [intros x y; apply null_last_leb_total|].
    intros x y z. apply null_last_leb_trans.
  - eapply perm_trans; [apply order_by_Permutation|].
    eapply perm_trans; [|apply Permutation_sym; apply order_by_Permutation].
    apply (@group_count_Permutation _ _ _ date_eqb_spec). apply Permutation_sym. exact P.
Qed.

Lemma sql_MIN_Permutation :
  forall col col', Permutation col col' -> sql_MIN col' = sql_MIN col.
Proof.
  intros col col' P.
  destruct (sql_MIN_spec col) as [N S], (sql_MIN_spec col') as [N' S'].
  destruct (sql_MIN col) as [m|] eqn:E, (sql_MIN col') as [m'|] eqn:E'.
  - destruct (S m eq_refl) as [I B], (S' m' eq_refl) as [I' B'].
    assert (m' <= m)%Z.
    { apply B'. eapply Permutation_in; [exact P | exact I]. }
    assert (m <= m')%Z.
    { apply B. eapply Permutation_in; [apply Permutation_sym; exact P | exact I']. }
    f_equal. lia.
  - destruct (S m eq_refl) as [I _].
    assert (X : Some m = None).
    { apply (proj1 N' eq_refl). eapply Permutation_in; [exact P | exact I]. }
    discriminate X.
  - destruct (S' m' eq_refl) as [I' _].
    assert (X : Some m' = None).
    { apply (proj1 N eq_refl).
      eapply Permutation_in; [apply Permutation_sym; exact P | exact I']. }
    discriminate X.
  - reflexivity.
Qed.

Lemma sql_MAX_Permutation :
  forall col col', Permutation col col' -> sql_MAX col' = sql_MAX col.
Proof.
  intros col col' P.
  destruct (sql_MAX_spec col) as [N S], (sql_MAX_spec col') as [N' S'].
  destruct (sql_MAX col) as [m|] eqn:E, (sql_MAX col') as [m'|] eqn:E'.
  - destruct (S m eq_refl) as [I B], (S' m' eq_refl) as [I' B'].
    assert (m <= m')%Z.
    { apply B'. eapply Permutation_in; [exact P | exact I]. }
    assert (m' <= m)%Z.
    { apply B. eapply Permutation_in; [apply Permutation_sym; exact P | exact I']. }
    f_equal. lia.
  - destruct (S m eq_refl) as [I _].
    assert (X : Some m = None).
    { apply (proj1 N' eq_refl). eapply Permutation_in; [exact P | exact I]. }
    discriminate X.
  - destruct (S' m' eq_refl) as [I' _].
    assert (X : Some m' = None).
    { apply (proj1 N eq_refl).
      eapply Permutation_in; [apply Permutation_sym; exact P | exact I']. }
    discriminate X.
  - reflexivity.
Qed.

Section BreakdownUpToOrder.
Variable A : Type.
Variable key : A -> option string.
Variable label : option string -> string.

Local Notation "'breakdown' rows" :=
  (forEach (group_count (option_eqb String.eqb) key rows)
     (fun (obj : list (string * nat)) (row : option string * nat) =>
        obj_assign obj (label (fst row)) (snd row)) [])
  (at level 10, rows at level 9, only parsing).

(** The keys of a breakdown do not depend on the order of the rows. *)
Lemma breakdown_keys_order_independent :
  forall rows rows' k,
    Permutation rows rows' ->
    (obj_get String.eqb (breakdown rows') k = None <->
     obj_get String.eqb (breakdown rows) k = None).
Proof.
  assert (H : forall rows rows' k,
             Permutation rows rows' ->
             obj_get String.eqb (breakdown rows') k = None ->
             obj_get String.eqb (breakdown rows) k = None).
  { intros rows rows' k P N.
    destruct (obj_get String.eqb (breakdown rows) k) as [n|] eqn:G; [|reflexivity].
    destruct (proj1 (breakdown_is_key key label rows k) (ex_intro _ n G))
      as (NP & r & Ir & Lr).
    destruct (proj2 (breakdown_is_key key label rows' k)) as [n' G'].
    { split; [exact NP|]. exists r. split; [|exact Lr].
      eapply Permutation_in; [exact P | exact Ir]. }
    rewrite N in G'. discriminate G'. }
  intros rows rows' k P. split.
  - apply H. exact P.
  - apply H. apply Permutation_sym. exact P.
Qed.

(** Neither does the value of a label behind which stands one key only. *)
Lemma breakdown_order_independent :
  forall rows rows' k,
    Permutation rows rows' ->
    (forall r r', In r rows -> In r' rows ->
                  label (key r) = k -> label (key r') = k -> key r = key r') ->
    obj_get String.eqb (breakdown rows') k = obj_get String.eqb (breakdown rows) k.
Proof.
  intros rows rows' k P One.
  rewrite (@breakdown_exact_key _ key label rows k One).
  rewrite (@breakdown_exact_key _ key label rows' k).
  - rewrite (count_if_Permutation _ P). reflexivity.
  - intros r r' Ir Ir'. apply One.
    + eapply Permutation_in; [apply Permutation_sym; exact P | exact Ir].
    + eapply Permutation_in; [apply Permutation_sym; exact P | exact Ir'].
Qed.
End BreakdownUpToOrder.

(** The [created_at] values in descending order are the same for every
    order of the rows. *)
Lemma recent_created_at_order_independent :
  forall rows rows' : list Row.t,
    Permutation rows rows' ->
    map Row.created_at
      (order_by (fun r1 r2 => null_last_leb (Row.created_at r2) (Row.created_at r1)) rows')
    = map Row.created_at
        (order_by (fun r1 r2 => null_last_leb (Row.created_at r2) (Row.created_at r1)) rows).
Proof.
  intros rows rows' P.
  assert (S : forall l : list Row.t,
             StronglySorted (fun a b : option Z => null_last_leb b a = true)
               (map Row.created_at
                  (order_by (fun r1 r2 => null_last_leb (Row.created_at r2)
                                                        (Row.created_at r1)) l))).
  { intros l. apply StronglySorted_map.
    apply (@order_by_sorted _
             (fun r1 r2 => null_last_leb (Row.created_at r2) (Row.created_at r1))).
    - intros x y. apply null_last_leb_total.
    - intros x y z H1 H2. exact (null_last_leb_trans _ _ _ H2 H1). }
  apply sorted_Permutation_eq with (R := fun a b : option Z => null_last_leb b a = true).
  - intros x y _ _ H1 H2. exact (null_last_leb_antisym _ _ H2 H1).
  - apply S.
  - apply S.
  - apply Permutation_map.
    eapply perm_trans; [apply order_by_Permutation|].
    eapply perm_trans; [|apply Permutation_sym; apply order_by_Permutation].
    apply Permutation_sym. exact P.
Qed.

(** When no two rows have the same [created_at], so are the rows
    themselves. *)
Lemma recent_order_independent :
  forall rows rows' : list Row.t,
    Permutation rows rows' ->
    NoDup (map Row.created_at rows) ->
    order_by (fun r1 r2 => null_last_leb (Row.created_at r2) (Row.created_at r1)) rows'
    = order_by (fun r1 r2 => null_last_leb (Row.created_at r2) (Row.created_at r1)) rows.
Proof.
  intros rows rows' P ND.
  assert (S : forall l : list Row.t,
             StronglySorted created_at_desc
               (order_by (fun r1 r2 => null_last_leb (Row.created_at r2)
                                                     (Row.created_at r1)) l)).
  { intros l.
    apply (@order_by_sorted _
             (fun r1 r2 => null_last_leb (Row.created_at r2) (Row.created_at r1))).
    - intros x y. apply null_last_leb_total.
    - intros x y z H1 H2. exact (null_last_leb_trans _ _ _ H2 H1). }
  apply sorted_Permutation_eq with (R := created_at_desc).
  - intros x y Ix Iy H1 H2.
    apply (@NoDup_map_In_eq _ _ Row.created_at rows').
    + eapply Permutation_NoDup; [apply Permutation_map; exact P | exact ND].
    + eapply Permutation_in; [apply order_by_Permutation | exact Ix].
    + eapply Permutation_in; [apply order_by_Permutation | exact Iy].
    + exact (null_last_leb_antisym _ _ H2 H1).
  - apply S.
  - apply S.
  - eapply perm_trans; [apply order_by_Permutation|].
    eapply perm_trans; [|apply Permutation_sym; apply order_by_Permutation].
    apply Permutation_sym. exact P.
Qed.

(** C9, as the specification has it, fails: the store holds the same two
    records at both calls, created at the same instant; the engine lists
    tied rows and groups in one order at the first call and in the other
    at the second, and neither [recentQueries] nor the breakdowns, whose
    properties are serialized in the order in which they were written, are
    the same. *)
Lemma C9_counterexample :
  Permutation tied_rows (rev tied_rows) /\
  exists s s2,
    computeSnapshot (store_of tied_rows) = (Normal s, store_of tied_rows) /\
    computeSnapshot (store_of (rev tied_rows)) = (Normal s2, store_of (rev tied_rows)) /\
    map RecentQuery.id (recentQueries s) = [JNum 1; JNum 2] /\
    map RecentQuery.id (recentQueries s2) = [JNum 2; JNum 1] /\
    searchTypeBreakdown s = [("job", 1); ("company", 1)] /\
    searchTypeBreakdown s2 = [("company", 1); ("job", 1)] /\
    s <> s2.
Proof.
  split; [apply Permutation_rev|].
  eexists. eexists. split; [cbv; reflexivity|]. split; [cbv; reflexivity|].
  repeat (split; [reflexivity|]).
  intros E. apply (f_equal searchTypeBreakdown) in E. discriminate E.
Qed.

(** Under a label that two groups share, the value follows the order of
    the groups: the same three records give [{ Unknown: 2 }] when the group
    of the empty string comes last and [{ Unknown: 1 }] when the group
    without search type does.  Neither is the number of records labelled
    [Unknown]. *)
Lemma shared_label_follows_the_order :
  Permutation absent_and_two_empty (rev absent_and_two_empty) /\
  exists s s2,
    computeSnapshot (store_of absent_and_two_empty)
      = (Normal s, store_of absent_and_two_empty) /\
    computeSnapshot (store_of (rev absent_and_two_empty))
      = (Normal s2, store_of (rev absent_and_two_empty)) /\
    searchTypeBreakdown s = [("Unknown", 2)] /\
    searchTypeBreakdown s2 = [("Unknown", 1)] /\
    ~ one_search_type "Unknown" absent_and_two_empty.
Proof.
  split; [apply Permutation_rev|].
  eexists. eexists. split; [cbv; reflexivity|]. split; [cbv; reflexivity|].
  split; [reflexivity|]. split; [reflexivity|].
  intros One.
  discriminate (One (Row.make 1 (Some "a") (Some "web") None (Some (day 19723)))
                    (Row.make 2 (Some "b") (Some "web") (Some "") (Some (day 19724)))
                    (or_introl eq_refl) (or_intror (or_introl eq_refl))
                    eq_refl eq_refl).
Qed.

(** C9, amended.  Let two calls find the same records, listed by the
    engine in whatever order at each call.  Both return a snapshot and
    leave the store as it was, and the two snapshots have
    - the same [total], [timelineData] and [dateRange];
    - the same keys in [searchTypeBreakdown], and the same value under
      every label behind which stands one search type only; likewise for
      [platformBreakdown];
    - in [recentQueries], the same [created_at] values in the same order,
      and the same elements when no two records have the same
      [created_at];
    - and they are the same snapshot when the engine lists the rows in the
      same order at both calls. *)
Theorem C9_snapshot_up_to_engine_order :
  forall w w2,
    Permutation (search_queries w) (search_queries w2) ->
    exists s s2,
      computeSnapshot w = (Normal s, w) /\
      computeSnapshot w2 = (Normal s2, w2) /\
      total s2 = total s /\
      timelineData s2 = timelineData s /\
      dateRange s2 = dateRange s /\
      (forall k,
          obj_get String.eqb (searchTypeBreakdown s2) k = None <->
          obj_get String.eqb (searchTypeBreakdown s) k = None) /\
      (forall k,
          one_search_type k (search_queries w) ->
          obj_get String.eqb (searchTypeBreakdown s2) k
          = obj_get String.eqb (searchTypeBreakdown s) k) /\
      (forall k,
          obj_get String.eqb (platformBreakdown s2) k = None <->
          obj_get String.eqb (platformBreakdown s) k = None) /\
      (forall k,
          one_platform_name k (search_queries w) ->
          obj_get String.eqb (platformBreakdown s2) k
          = obj_get String.eqb (platformBreakdown s) k) /\
      map RecentQuery.created_at (recentQueries s2)
        = map RecentQuery.created_at (recentQueries s) /\
      (NoDup (map Row.created_at (search_queries w)) ->
       recentQueries s2 = recentQueries s) /\
      (search_queries w2 = search_queries w -> s2 = s).
Proof.
  intros w w2 P.
  destruct (computeSnapshot_returns w) as (s & R & T & ST & PF & TL & DR & RQ).
  destruct (computeSnapshot_returns w2) as (s2 & R2 & T2 & ST2 & PF2 & TL2 & DR2 & RQ2).
  exists s, s2. split; [exact R|]. split; [exact R2|].
  assert (PFl : Permutation
                  (filter (fun r => negb (option_eqb String.eqb (Row.platform_name r) None))
                          (search_queries w))
                  (filter (fun r => negb (option_eqb String.eqb (Row.platform_name r) None))
                          (search_queries w2)))
    by (apply filter_Permutation; exact P).
  split; [|split; [|split; [|split; [|split; [|split; [|split; [|split; [|split]]]]]]]].
  - rewrite T, T2. symmetry. apply Permutation_length. exact P.
  - rewrite TL, TL2. apply timeline_order_independent. exact P.
  - rewrite DR, DR2.
    rewrite (sql_MIN_Permutation (Permutation_map Row.created_at P)).
    rewrite (sql_MAX_Permutation (Permutation_map Row.created_at P)).
    reflexivity.
  - intros k. rewrite ST, ST2.
    apply (breakdown_keys_order_independent Row.search_type
             (fun x => text_or x "Unknown")). exact P.
  - intros k One. rewrite ST, ST2.
    apply (breakdown_order_independent Row.search_type
             (fun x => text_or x "Unknown")); [exact P | exact One].
  - intros k. rewrite PF, PF2.
    apply (breakdown_keys_order_independent Row.platform_name
             (fun x => text_or x "Unknown")). exact PFl.
  - intros k One. rewrite PF, PF2.
    apply (breakdown_order_independent Row.platform_name
             (fun x => text_or x "Unknown")); [exact PFl|].
    intros r r' Ir Ir'. apply filter_In in Ir, Ir'.
    destruct Ir as [Ir Nr], Ir' as [Ir' Nr'].
    apply One; [exact Ir | exact Ir' | |].
    + intros E. rewrite E in Nr. discriminate Nr.
    + intros E. rewrite E in Nr'. discriminate Nr'.
  - rewrite RQ, RQ2, !map_map. cbn [RecentQuery.created_at].
    rewrite <- !(map_map Row.created_at js_of_timestamp), <- !firstn_map.
    rewrite (recent_created_at_order_independent P). reflexivity.
  - intros ND. rewrite RQ, RQ2.
    rewrite (recent_order_independent P ND). reflexivity.
  - intros E. rewrite E in *.
    destruct s, s2; simpl in *. congruence.
Qed.

Lemma C9_witness :
  exists s s2,
    computeSnapshot (store_of scenario) = (Normal s, store_of scenario) /\
    computeSnapshot (store_of (rev scenario)) = (Normal s2, store_of (rev scenario)) /\
    total s2 = total s /\
    timelineData s2 = timelineData s /\
    dateRange s2 = dateRange s /\
    obj_get String.eqb (searchTypeBreakdown s2) "Unknown"
      = obj_get String.eqb (searchTypeBreakdown s) "Unknown" /\
    obj_get String.eqb (platformBreakdown s2) "web"
      = obj_get String.eqb (platformBreakdown s) "web" /\
    recentQueries s2 = recentQueries s.
Proof.
  destruct (C9_snapshot_up_to_engine_order (store_of scenario) (store_of (rev scenario)))
    as (s & s2 & R & R2 & T & TL & DR & _ & ST & _ & PF & _ & RQ & _).
  { apply Permutation_rev. }
  exists s, s2. split; [exact R|]. split; [exact R2|].
  split; [exact T|]. split; [exact TL|]. split; [exact DR|].
  split; [|split].
  - apply ST.
    intros r r' [<-|[<-|[<-|[]]]] [<-|[<-|[<-|[]]]]; simpl; intros E E';
      try reflexivity; discriminate.
  - apply PF.
    intros r r' [<-|[<-|[<-|[]]]] [<-|[<-|[<-|[]]]]; simpl; intros N N' E E';
      try reflexivity; try discriminate; congruence.
  - apply RQ. vm_compute.
    repeat (constructor; [simpl; intuition discriminate|]). constructor.
Defined.


(* ================================================================== *)
(** ** Error responses *)

Lemma is_number_500 : forall v, is_number v 500 = true <-> v = JNum 500.
Proof.
  intros v. destruct v; simpl; try (split; [discriminate | intros H; discriminate H]).
  rewrite Z.eqb_eq. split; [intros ->; reflexivity | intros H; inversion H; reflexivity].
Qed.

Lemma statusCode_truthy :
  forall a b, truthy (js_or (js_or a b) (JNum 500)) = true.
Proof.
  intros a b. unfold js_or.
  destruct (truthy a) eqn:Ta; simpl; rewrite ?Ta; try reflexivity.
  destruct (truthy b) eqn:Tb; simpl; rewrite ?Tb; reflexivity.
Qed.

Lemma env_var_value :
  forall name w,
    env_var name w =
      (Normal match assoc name (process_env w) with
              | Some s => JStr s
              | None => JUndefined
              end, w).
Proof. reflexivity. Qed.

(** X10.  In production ([NODE_ENV] is [production]) both error handlers
    answer with an [error] object of exactly two properties, [message] and
    [status]: no stack, no details, nothing of the database error.  The
    status is [err.status] if truthy, else [err.statusCode] if truthy, else
    500, hence never falsy.  When it is the number 500 the message is
    [Internal Server Error] whatever the error says; for any other status
    the message of the error is sent (or [Internal Server Error] if it has
    none). *)
Theorem X10_production_hides_details :
  forall err req w,
    assoc "NODE_ENV" (process_env w) = Some "production" ->
    exists logged logged_db c m,
      let response :=
        mkJsonResponse c (JObj [("error", JObj [("message", m); ("status", c)])]) in
      errorHandler err req w = (Normal (logged, response), w) /\
      errorHandler_db err req w = (Normal (logged_db, response), w) /\
      c = (if truthy (err_status err) then err_status err
           else if truthy (err_statusCode err) then err_statusCode err
           else JNum 500) /\
      truthy c = true /\
      (c = JNum 500 -> m = JStr "Internal Server Error") /\
      (c <> JNum 500 -> m = js_or (err_message err) (JStr "Internal Server Error")) /\
      truthy m = true.
Proof.
  intros err req w P.
  set (c := js_or (js_or (err_status err) (err_statusCode err)) (JNum 500)).
  exists
    (JObj [("message", err_message err); ("stack", err_stack err);
           ("url", JStr (originalUrl req)); ("method", method req);
           ("ip", ip req); ("statusCode", c)]).
  eexists. exists c.
  exists (if is_number c 500 then JStr "Internal Server Error"
          else js_or (err_message err) (JStr "Internal Server Error")).
  cbv zeta. split; [|split; [|split; [|split; [|split; [|split]]]]].
  - unfold errorHandler, bind, ret. rewrite env_var_value, P. reflexivity.
  - unfold errorHandler_db, bind, ret. rewrite env_var_value, P. reflexivity.
  - unfold c, js_or.
    destruct (truthy (err_status err)) eqn:Ta; simpl; rewrite ?Ta; reflexivity.
  - apply statusCode_truthy.
  - intros E. apply is_number_500 in E. rewrite E. reflexivity.
  - intros D. destruct (is_number c 500) eqn:E; [|reflexivity].
    apply is_number_500 in E. contradiction.
  - destruct (is_number c 500); [reflexivity|]. unfold js_or.
    destruct (truthy (err_message err)) eqn:T; [exact T | reflexivity].
Qed.

Lemma X10_witness :
  exists logged c m,
    errorHandler
      (mkErrorView JUndefined JUndefined (JStr "connect ECONNREFUSED 10.0.0.5:5432")
                   (JStr "Error: connect ECONNREFUSED") JUndefined (JStr "Error")
                   (JObj [("code", JStr "ECONNREFUSED")]) JUndefined JUndefined)
      (mkRequestInfo "/api/stats" (JStr "GET") (JStr "10.0.0.9"))
      (with_env [("NODE_ENV", "production")] (store_of []))
    = (Normal (logged,
               mkJsonResponse c
                 (JObj [("error", JObj [("message", m); ("status", c)])])),
       with_env [("NODE_ENV", "production")] (store_of [])) /\
    c = JNum 500 /\ m = JStr "Internal Server Error".
Proof.
  destruct (X10_production_hides_details
              (mkErrorView JUndefined JUndefined
                 (JStr "connect ECONNREFUSED 10.0.0.5:5432")
                 (JStr "Error: connect ECONNREFUSED") JUndefined (JStr "Error")
                 (JObj [("code", JStr "ECONNREFUSED")]) JUndefined JUndefined)
              (mkRequestInfo "/api/stats" (JStr "GET") (JStr "10.0.0.9"))
              (with_env [("NODE_ENV", "production")] (store_of [])) eq_refl)
    as (logged & logged_db & c & m & H1 & _ & Ec & _ & Hm & _ & _).
  exists logged, c, m. simpl in Ec.
  split; [exact H1|]. split; [exact Ec | exact (Hm Ec)].
Defined.

(** X11.  A request that no route took is answered 404 with the message
    [Not Found - <url>], in production too, since only the message of a
    500 is withheld; in production the [error] object holds nothing else
    but the status, elsewhere it also carries the stack. *)
Theorem X11_not_found_is_404 :
  forall stack req w,
    exists logged body,
      not_found_route stack req w
        = (Normal (logged, mkJsonResponse (JNum 404) body), w) /\
      get_opt (error_of_body body) "message" = JStr ("Not Found - " ++ originalUrl req) /\
      get_opt (error_of_body body) "status" = JNum 404 /\
      if is_string (match assoc "NODE_ENV" (process_env w) with
                    | Some s => JStr s
                    | None => JUndefined
                    end) "production"
      then own_keys (error_of_body body) = ["message"; "status"]
      else own_keys (error_of_body body) = ["message"; "status"; "stack"; "details"] /\
           get_opt (error_of_body body) "stack" = JStr stack.
Proof.
  intros stack req w.
  unfold not_found_route, notFoundHandler, errorHandler, bind, ret.
  rewrite env_var_value.
  destruct (is_string _ "production") eqn:P; cbn -[append String.eqb].
  - eexists. eexists. split; [reflexivity|]. repeat split.
  - eexists. eexists. split; [reflexivity|]. repeat split.
Qed.

(** X12.  The two error handlers of the file send the same status, and the
    same [error] object up to the four database properties, which the
    second adds at the end only outside production and only for an error
    that has an [original] or a [parent]. *)
Theorem X12_handlers_agree :
  forall err req w,
    exists logged logged_db r r_db props,
      errorHandler err req w = (Normal (logged, r), w) /\
      errorHandler_db err req w = (Normal (logged_db, r_db), w) /\
      json_status r_db = json_status r /\
      json_body r = JObj [("error", JObj props)] /\
      json_body r_db =
        JObj [("error",
               JObj (props ++
                     if is_string (match assoc "NODE_ENV" (process_env w) with
                                   | Some s => JStr s
                                   | None => JUndefined
                                   end) "production"
                     then []
                     else if truthy (js_or (err_original err) (err_parent err))
                          then
                            let dbError := js_or (err_original err) (err_parent err) in
                            [("dbMessage", get_opt dbError "message");
                             ("dbCode", get_opt dbError "code");
                             ("dbDetail", get_opt dbError "detail");
                             ("dbHint", get_opt dbError "hint")]
                          else []))].
Proof.
  intros err req w.
  unfold errorHandler, errorHandler_db, bind, ret. rewrite env_var_value.
  destruct (is_string _ "production") eqn:P.
  - do 5 eexists. split; [reflexivity|]. split; [reflexivity|].
    split; [reflexivity|]. split; [reflexivity|]. simpl. reflexivity.
  - do 5 eexists. split; [reflexivity|]. split; [reflexivity|].
    split; [reflexivity|]. split; [reflexivity|]. simpl.
    destruct (truthy (js_or (err_original err) (err_parent err))); reflexivity.
Qed.

(* ================================================================== *)
(** ** Allowed origins *)

Lemma split_comma_not_nil : forall s, split_comma s <> [].
Proof.
  intros s. induction s as [|c s IH]; simpl; [discriminate|].
  destruct (Ascii.eqb c ","%char); [discriminate|].
  destruct (split_comma s); discriminate.
Qed.

Lemma split_comma_item :
  forall i, comma_free i = true -> split_comma i = [i].
Proof.
  induction i as [|c i IH]; simpl; intros H; [reflexivity|].
  apply andb_prop in H. destruct H as [C F].
  apply negb_true_iff in C. rewrite C, (IH F). reflexivity.
Qed.

Lemma split_comma_item_then :
  forall i rest,
    comma_free i = true ->
    split_comma (i ++ String ","%char rest)%string = i :: split_comma rest.
Proof.
  induction i as [|c i IH]; simpl; intros rest H; [reflexivity|].
  apply andb_prop in H. destruct H as [C F].
  apply negb_true_iff in C. rewrite C, (IH rest F). reflexivity.
Qed.

(** Joining items with commas and splitting again gives the items back. *)
Lemma split_comma_concat :
  forall items,
    items <> [] ->
    (forall i, In i items -> comma_free i = true) ->
    split_comma (String.concat "," items) = items.
Proof.
  induction items as [|i items IH]; intros NE F; [congruence|].
  destruct items as [|j items].
  - simpl. apply split_comma_item. apply F. left; reflexivity.
  - change (String.concat "," (i :: j :: items))
      with (i ++ String ","%char (String.concat "," (j :: items)))%string.
    rewrite split_comma_item_then by (apply F; left; reflexivity).
    f_equal. apply IH; [discriminate|].
    intros k I. apply F. right; exact I.
Qed.

Lemma cors_origin_allowed :
  forall allowed origin,
    cors_origin allowed origin = Normal true <->
    origin = None \/ origin = Some "" \/ exists o, origin = Some o /\ In o allowed.
Proof.
  intros allowed [o|]; simpl.
  - destruct (String.eqb_spec o "") as [->|D].
    + split; [auto | reflexivity].
    + destruct (existsb (String.eqb o) allowed) eqn:E.
      * split; [|reflexivity]. intros _. right. right. exists o.
        split; [reflexivity|]. apply existsb_exists in E.
        destruct E as (x & I & Ex). apply String.eqb_eq in Ex. subst x. exact I.
      * split; [discriminate|].
        intros [H|[H|(x & H & I)]]; try discriminate; inversion H; subst; [congruence|].
        assert (T : existsb (String.eqb x) allowed = true).
        { apply existsb_exists. exists x. split; [exact I | apply String.eqb_refl]. }
        congruence.
  - split; [auto | reflexivity].
Qed.

Lemma cors_origin_verdict :
  forall allowed origin,
    cors_origin allowed origin = Normal true \/
    cors_origin allowed origin = Throw (Error "Not allowed by CORS").
Proof.
  intros allowed [o|]; simpl; [|auto].
  destruct (o =? ""); [auto|]. destruct (existsb (String.eqb o) allowed); auto.
Qed.

(** X13.  With [ALLOWED_ORIGINS] set to items joined by commas (items
    without commas, at least one), a request passes the CORS check exactly
    when it has no origin, an empty one, or one that is, character for
    character, one of the items; any other origin is refused with
    [Not allowed by CORS].  With [ALLOWED_ORIGINS] not set the only item is
    [http://localhost:3000]. *)
Theorem X13_cors_allows_the_items :
  forall w origin,
    (forall items,
        items <> [] ->
        (forall i, In i items -> comma_free i = true) ->
        assoc "ALLOWED_ORIGINS" (process_env w) = Some (String.concat "," items) ->
        (configureCors_check origin w = (Normal true, w) <->
         origin = None \/ origin = Some "" \/
         exists o, origin = Some o /\ In o items) /\
        (configureCors_check origin w = (Normal true, w) \/
         configureCors_check origin w = (Throw (Error "Not allowed by CORS"), w))) /\
    (assoc "ALLOWED_ORIGINS" (process_env w) = None ->
     (configureCors_check origin w = (Normal true, w) <->
      origin = None \/ origin = Some "" \/ origin = Some "http://localhost:3000")).
Proof.
  intros w origin. split.
  - intros items NE F E.
    assert (R : configureCors_check origin w = (cors_origin items origin, w)).
    { unfold configureCors_check, allowedOrigins, bind, ret, lift.
      rewrite env_var_value, E. cbv beta iota.
      rewrite (split_comma_concat NE F). reflexivity. }
    rewrite R. split.
    + rewrite <- cors_origin_allowed. split; [intros H; inversion H; congruence|].
      intros ->. reflexivity.
    + destruct (cors_origin_verdict items origin) as [-> | ->]; auto.
  - intros E.
    assert (R : configureCors_check origin w
                = (cors_origin ["http://localhost:3000"] origin, w)).
    { unfold configureCors_check, allowedOrigins, bind, ret, lift.
      rewrite env_var_value, E. reflexivity. }
    rewrite R. split.
    + intros H. assert (H' : cors_origin ["http://localhost:3000"] origin = Normal true)
        by (inversion H; congruence).
      apply cors_origin_allowed in H'.
      destruct H' as [H'|[H'|(o & H' & [<-|[]])]]; auto.
    + intros H.
      assert (H' : cors_origin ["http://localhost:3000"] origin = Normal true).
      { apply cors_origin_allowed.
        destruct H as [H|[H|H]]; auto. right. right.
        exists "http://localhost:3000". split; [exact H | left; reflexivity]. }
      rewrite H'. reflexivity.
Qed.

Lemma X13_witness :
  configureCors_check (Some "https://b.example")
    (with_env [("ALLOWED_ORIGINS", "https://a.example,https://b.example")] (store_of []))
  = (Normal true,
     with_env [("ALLOWED_ORIGINS", "https://a.example,https://b.example")] (store_of [])).
Proof.
  destruct (X13_cors_allows_the_items
              (with_env [("ALLOWED_ORIGINS", "https://a.example,https://b.example")]
                        (store_of []))
              (Some "https://b.example")) as [H _].
  destruct (H ["https://a.example"; "https://b.example"]) as [Iff _].
  - discriminate.
  - intros i [<-|[<-|[]]]; reflexivity.
  - reflexivity.
  - apply Iff. right. right. exists "https://b.example".
    split; [reflexivity | right; left; reflexivity].
Defined.

(* ================================================================== *)
(** ** The redirect to HTTPS *)

(** X14.  The redirect to HTTPS is in force only when both
    [FORCE_HTTPS_REDIRECT] and [HTTPS_ENABLED] hold; otherwise every
    request goes on.  A request is redirected only to
    [https://<host><url>], its own non-empty host and URL.  A non-empty
    [X-Forwarded-Proto] header alone decides the protocol: [https] there
    lets the request pass on any socket, anything else does not, even on
    an encrypted socket.  Without the header an encrypted socket passes.
    A request that does not pass and has no host is answered 400. *)
Theorem X14_https_redirect :
  forall force enabled req,
    (force && enabled = false -> https_gate force enabled req = Passed) /\
    (forall target,
        https_gate force enabled req = Redirected target ->
        force = true /\ enabled = true /\
        exists h, host req = Some h /\ h <> "" /\
                  target = ("https://" ++ h ++ wire_url req)%string) /\
    (x_forwarded_proto req = Some "https" -> https_gate force enabled req = Passed) /\
    (forall p, x_forwarded_proto req = Some p -> p <> "" -> p <> "https" ->
               force && enabled = true ->
               https_gate force enabled req <> Passed) /\
    (header_truthy (x_forwarded_proto req) = false -> encrypted req = true ->
     https_gate force enabled req = Passed) /\
    (https_gate force enabled req <> Passed -> header_truthy (host req) = false ->
     https_gate force enabled req = Answered 400 "Host header is required").
Proof.
  intros force enabled [xfp enc proto h url]. unfold https_gate, enforce_https.
  cbn [x_forwarded_proto encrypted protocol host wire_url].
  split; [intros ->; reflexivity|].
  split.
  { intros target H. destruct (force && enabled) eqn:FE; [|discriminate H].
    apply andb_prop in FE. destruct FE as [-> ->].
    split; [reflexivity|]. split; [reflexivity|].
    destruct (_ =? "https"); [discriminate H|].
    destruct h as [hs|]; simpl in H; [|discriminate H].
    destruct (String.eqb_spec hs "") as [->|D]; simpl in H; [discriminate H|].
    inversion H. exists hs. auto. }
  split.
  { intros ->. destruct (force && enabled); reflexivity. }
  split.
  { intros p -> Np Nh ->. simpl.
    apply String.eqb_neq in Np. rewrite Np. simpl.
    apply String.eqb_neq in Nh. rewrite Nh.
    destruct (negb (header_truthy h)); discriminate. }
  split.
  { intros -> ->. destruct (force && enabled); reflexivity. }
  intros NP Hh. destruct (force && enabled); [|congruence].
  destruct (_ =? "https"); [congruence|]. rewrite Hh. reflexivity.
Qed.

Lemma X14_witness :
  https_gate true true
    (mkWireRequest None false "http" (Some "dash.example.com") "/dashboard")
  = Redirected "https://dash.example.com/dashboard" /\
  https_gate true true
    (mkWireRequest None true "https" (Some "dash.example.com") "/dashboard")
  = Passed.
Proof.
  split; [reflexivity|].
  destruct (X14_https_redirect true true
              (mkWireRequest None true "https" (Some "dash.example.com") "/dashboard"))
    as (_ & _ & _ & _ & H & _).
  apply H; reflexivity.
Defined.

(* ================================================================== *)
(** ** Connecting to the database *)

Section Connecting.
Context {sequelize : Sequelize}.
Variables retries delay : Z.

Lemma attempt_try_outcome :
  forall a st,
    fst (attempt_try a st) = attempt_outcome a /\
    waited (snd (attempt_try a st)) = waited st.
Proof.
  intros a st. unfold attempt_outcome, attempt_try.
  destruct (connect a); [|split; reflexivity].
  destruct (version_query a) as [info|]; [|split; reflexivity].
  destruct (get_prop info "version"); split; reflexivity.
Qed.

(** An attempt that fails before the last one: logged, waited for, and
    followed by the next attempt. *)
Lemma loop_retry :
  forall fuel a st e,
    attempt_outcome a = Throw e -> (a < retries)%Z ->
    exists st',
      testConnection_loop (S fuel) a retries delay st
        = testConnection_loop fuel (a + 1)%Z retries delay st' /\
      waited st' = (waited st + delay)%Z.
Proof.
  intros fuel a st e F L.
  destruct (attempt_try_outcome a st) as [O W].
  destruct (attempt_try a st) as [r st1] eqn:T. simpl in O, W.
  rewrite F in O. subst r.
  eexists. split.
  - simpl. rewrite T.
    destruct (Z.leb_spec a retries); [|lia].
    destruct (Z.ltb_spec a retries); [|lia]. reflexivity.
  - simpl. rewrite W. reflexivity.
Qed.

Lemma loop_success :
  forall fuel a st,
    attempt_outcome a = Normal tt -> (a <= retries)%Z ->
    exists st',
      testConnection_loop (S fuel) a retries delay st = (Normal (JBool true), st') /\
      waited st' = waited st.
Proof.
  intros fuel a st F L.
  destruct (attempt_try_outcome a st) as [O W].
  destruct (attempt_try a st) as [r st1] eqn:T. simpl in O, W.
  rewrite F in O. subst r.
  exists st1. split; [|exact W].
  simpl. rewrite T. destruct (Z.leb_spec a retries); [reflexivity | lia].
Qed.

Lemma loop_give_up :
  forall fuel st e,
    attempt_outcome retries = Throw e ->
    exists st',
      testConnection_loop (S fuel) retries retries delay st = (Throw e, st') /\
      waited st' = waited st /\
      exists entries,
        db_log st' =
          entries ++ [AttemptFailed retries retries (exn_message e); UnableToConnect].
Proof.
  intros fuel st e F.
  destruct (attempt_try_outcome retries st) as [O W].
  destruct (attempt_try retries st) as [r st1] eqn:T. simpl in O, W.
  rewrite F in O. subst r.
  eexists. split; [|split].
  - simpl. rewrite T.
    destruct (Z.leb_spec retries retries); [|lia].
    destruct (Z.ltb_spec retries retries); [lia|]. reflexivity.
  - simpl. exact W.
  - simpl. exists (db_log st1). rewrite <- app_assoc. reflexivity.
Qed.

Lemma loop_first_success :
  forall j fuel a st,
    (forall i, (a <= i < a + Z.of_nat j)%Z -> exists e, attempt_outcome i = Throw e) ->
    attempt_outcome (a + Z.of_nat j)%Z = Normal tt ->
    (a + Z.of_nat j <= retries)%Z ->
    j < fuel ->
    exists st',
      testConnection_loop fuel a retries delay st = (Normal (JBool true), st') /\
      waited st' = (waited st + Z.of_nat j * delay)%Z.
Proof.
  induction j as [|j IH]; intros fuel a st Fails Ok Le Fuel.
  - destruct fuel as [|fuel]; [lia|].
    rewrite Z.add_0_r in Ok, Le.
    destruct (loop_success fuel st Ok Le) as (st' & R & W).
    exists st'. split; [exact R | rewrite W; lia].
  - destruct fuel as [|fuel]; [lia|].
    destruct (Fails a) as [e Fe]; [lia|].
    destruct (@loop_retry fuel a st e Fe) as (st1 & R1 & W1); [lia|].
    destruct (IH fuel (a + 1)%Z st1) as (st' & R & W).
    + intros i Hi. apply Fails. lia.
    + replace (a + 1 + Z.of_nat j)%Z with (a + Z.of_nat (S j))%Z by lia. exact Ok.
    + lia.
    + lia.
    + exists st'. split; [rewrite R1; exact R | rewrite W, W1; lia].
Qed.

Lemma loop_all_fail :
  forall j fuel a st,
    (a + Z.of_nat j = retries)%Z ->
    (forall i, (a <= i <= retries)%Z -> exists e, attempt_outcome i = Throw e) ->
    j < fuel ->
    exists e st',
      testConnection_loop fuel a retries delay st = (Throw e, st') /\
      attempt_outcome retries = Throw e /\
      waited st' = (waited st + Z.of_nat j * delay)%Z /\
      exists entries,
        db_log st' =
          entries ++ [AttemptFailed retries retries (exn_message e); UnableToConnect].
Proof.
  induction j as [|j IH]; intros fuel a st Last Fails Fuel.
  - destruct fuel as [|fuel]; [lia|].
    assert (a = retries) by lia. subst a.
    destruct (Fails retries) as [e Fe]; [lia|].
    destruct (loop_give_up fuel st Fe) as (st' & R & W & L).
    exists e, st'. split; [exact R|]. split; [exact Fe|].
    split; [rewrite W; lia | exact L].
  - destruct fuel as [|fuel]; [lia|].
    destruct (Fails a) as [e Fe]; [lia|].
    destruct (@loop_retry fuel a st e Fe) as (st1 & R1 & W1); [lia|].
    destruct (IH fuel (a + 1)%Z st1) as (e' & st' & R & Fe' & W & L).
    + lia.
    + intros i Hi. apply Fails. lia.
    + lia.
    + exists e', st'. split; [rewrite R1; exact R|]. split; [exact Fe'|].
      split; [rewrite W, W1; lia | exact L].
Qed.

(** X15.  [testConnection] returns [true] at the first attempt that
    succeeds: when the attempts before the [k]-th fail and the [k]-th
    succeeds, with [k] at most [retries], it returns [true] after waiting
    [delay] once for each failed attempt, [(k - 1) * delay] in all, and
    makes no further attempt. *)
Theorem X15_testConnection_first_success :
  forall k st,
    (1 <= k <= retries)%Z ->
    (forall i, (1 <= i < k)%Z -> exists e, attempt_outcome i = Throw e) ->
    attempt_outcome k = Normal tt ->
    exists st',
      testConnection retries delay st = (Normal (JBool true), st') /\
      waited st' = (waited st + (k - 1) * delay)%Z.
Proof.
  intros k st K Fails Ok. unfold testConnection.
  destruct (@loop_first_success (Z.to_nat (k - 1)) (S (Z.to_nat retries)) 1 st)
    as (st' & R & W).
  - intros i Hi. apply Fails. lia.
  - replace (1 + Z.of_nat (Z.to_nat (k - 1)))%Z with k by lia. exact Ok.
  - lia.
  - lia.
  - exists st'. split; [exact R|]. rewrite W, Z2Nat.id by lia. reflexivity.
Qed.

(** X16.  When all of the [retries] attempts fail ([retries] at least 1),
    [testConnection] throws the error of the last attempt, having waited
    [delay] between the attempts but not after the last one,
    [(retries - 1) * delay] in all; the last two log entries are the
    failure of attempt [retries] of [retries] and the giving up. *)
Theorem X16_testConnection_gives_up :
  forall st,
    (1 <= retries)%Z ->
    (forall i, (1 <= i <= retries)%Z -> exists e, attempt_outcome i = Throw e) ->
    exists e st',
      testConnection retries delay st = (Throw e, st') /\
      attempt_outcome retries = Throw e /\
      waited st' = (waited st + (retries - 1) * delay)%Z /\
      exists entries,
        db_log st' =
          entries ++ [AttemptFailed retries retries (exn_message e); UnableToConnect].
Proof.
  intros st R1 Fails. unfold testConnection.
  destruct (@loop_all_fail (Z.to_nat (retries - 1)) (S (Z.to_nat retries)) 1 st)
    as (e & st' & R & Fe & W & L).
  - lia.
  - exact Fails.
  - lia.
  - exists e, st'. split; [exact R|]. split; [exact Fe|].
    split; [rewrite W, Z2Nat.id by lia; reflexivity | exact L].
Qed.


Lemma loop_bounds :
  forall fuel a st,
    (0 <= delay)%Z ->
    (retries < a + Z.of_nat fuel)%Z ->
    let r := fst (testConnection_loop fuel a retries delay st) in
    let st' := snd (testConnection_loop fuel a retries delay st) in
    (r = Normal JUndefined <-> (retries < a)%Z) /\
    (r = Normal JUndefined \/ r = Normal (JBool true) \/
     exists i e, (a <= i <= retries)%Z /\ attempt_outcome i = Throw e /\ r = Throw e) /\
    (waited st <= waited st' <= waited st + Z.max 0 (retries - a) * delay)%Z.
Proof.
  induction fuel as [|fuel IH]; intros a st D F; cbv zeta.
  - simpl. split; [split; [intros _; lia | reflexivity]|].
    split; [left; reflexivity|]. nia.
  - cbn [testConnection_loop].
    destruct (Z.leb_spec a retries) as [Le|Gt].
    + destruct (attempt_try_outcome a st) as [O W].
      destruct (attempt_try a st) as [[u|e] st1] eqn:T; simpl in O, W.
      * simpl. split; [split; [discriminate | lia]|].
        split; [right; left; reflexivity|]. rewrite W. nia.
      * destruct (Z.ltb_spec a retries) as [Lt|Ge].
        -- match goal with
           | |- context [testConnection_loop fuel (a + 1)%Z retries delay ?s] =>
               specialize (IH (a + 1)%Z s D ltac:(lia)); set (st3 := s) in *
           end.
           cbv zeta in IH. destruct IH as (U & Tri & B).
           assert (W3 : waited st3 = (waited st + delay)%Z)
             by (unfold st3; simpl; rewrite W; reflexivity).
           split; [split; [intros H; apply U in H; lia | lia]|].
           split.
           ++ destruct Tri as [H|[H|(i & e' & Hi & Fe & H)]].
              ** apply U in H. lia.
              ** right; left; exact H.
              ** right; right. exists i, e'. split; [lia | auto].
           ++ rewrite W3 in B. nia.
        -- simpl. split; [split; [discriminate | lia]|].
           split.
           ++ right; right. exists a, e. split; [lia|]. split; [|reflexivity].
              symmetry. exact O.
           ++ rewrite W. nia.
    + simpl. split; [split; [intros _; lia | reflexivity]|].
      split; [left; reflexivity|]. nia.
Qed.

(** X17.  On every behaviour of the database, [testConnection] ends in
    one of three ways: it returns [true]; it throws the error of one of its
    attempts; or, when and only when [retries] is below 1, it returns
    [undefined] without having contacted the database or logged anything.
    With a non-negative [delay] the time it waits never exceeds
    [(retries - 1) * delay]. *)
Theorem X17_testConnection_outcomes :
  forall st,
    (0 <= delay)%Z ->
    let r := fst (testConnection retries delay st) in
    let st' := snd (testConnection retries delay st) in
    (r = Normal JUndefined <-> (retries < 1)%Z) /\
    ((retries < 1)%Z -> st' = st) /\
    (r = Normal JUndefined \/ r = Normal (JBool true) \/
     exists i e, (1 <= i <= retries)%Z /\ attempt_outcome i = Throw e /\ r = Throw e) /\
    (waited st <= waited st' <= waited st + Z.max 0 (retries - 1) * delay)%Z.
Proof.
  intros st D. cbv zeta. unfold testConnection.
  destruct (@loop_bounds (S (Z.to_nat retries)) 1 st D) as (U & Tri & B); [lia|].
  cbv zeta in U, Tri, B.
  split; [exact U|]. split; [|split; [exact Tri | exact B]].
  intros L. cbn [testConnection_loop].
  destruct (Z.leb_spec 1 retries); [lia | reflexivity].
Qed.

End Connecting.

Lemma X15_witness :
  exists st',
    testConnection (sequelize := flaky_database) 5 5000 (mkDbState [] 0)
      = (Normal (JBool true), st') /\
    waited st' = 10000%Z.
Proof.
  destruct (@X15_testConnection_first_success flaky_database 5 5000 3 (mkDbState [] 0))
    as (st' & R & W).
  - lia.
  - intros i Hi. exists (Error "connect ECONNREFUSED").
    unfold attempt_outcome, attempt_try. simpl.
    destruct (Z.ltb_spec i 3); [reflexivity | lia].
  - reflexivity.
  - exists st'. split; [exact R | exact W].
Defined.

Lemma X16_witness :
  exists e st',
    testConnection (sequelize := dead_database) 5 5000 (mkDbState [] 0) = (Throw e, st') /\
    waited st' = 20000%Z.
Proof.
  destruct (@X16_testConnection_gives_up dead_database 5 5000 (mkDbState [] 0))
    as (e & st' & R & _ & W & _).
  - lia.
  - intros i _. exists (Error "connect ECONNREFUSED"). reflexivity.
  - exists e, st'. split; [exact R | exact W].
Defined.

Lemma X17_witness :
  fst (testConnection (sequelize := dead_database) 0 5000 (mkDbState [] 0))
  = Normal JUndefined.
Proof.
  destruct (@X17_testConnection_outcomes dead_database 0 5000 (mkDbState [] 0))
    as ([_ H] & _); [lia|].
  apply H. lia.
Defined.

(* ================================================================== *)
(** ** Probes *)

(** X18.  The probes follow the database check and never fail themselves:
    [/ready] answers 200 [{ ready: true }] when [sequelize.authenticate()]
    succeeds and 503 with the message of its error as [reason] when it
    throws; [/health] answers 200 with status [ok] in the first case and
    503 with status [degraded], carrying that message, in the second, and
    never its own [Health check failed]; [/live] answers 200 whatever the
    database does.  None of them changes the state. *)
Theorem X18_probes_follow_the_database :
  forall (sequelize : Sequelize) proc w,
    live_route w = (Normal (mkJsonResponse (JNum 200) (JObj [("alive", JBool true)])), w) /\
    exists health,
      health_route proc w = (Normal health, w) /\
      get_opt (json_body health) "message" <> JStr "Health check failed" /\
      get_opt (json_body health) "uptime" = JNum (uptime_ms proc / 1000) /\
      match probe with
      | Normal _ =>
          ready_route w
            = (Normal (mkJsonResponse (JNum 200) (JObj [("ready", JBool true)])), w) /\
          json_status health = JNum 200 /\
          get_opt (json_body health) "status" = JStr "ok"
      | Throw error =>
          ready_route w
            = (Normal (mkJsonResponse (JNum 503)
                         (JObj [("ready", JBool false);
                                ("reason", JStr (exn_message error))])), w) /\
          json_status health = JNum 503 /\
          get_opt (json_body health) "status" = JStr "degraded" /\
          get_opt (get_opt (json_body health) "database") "message"
            = JStr (exn_message error)
      end.
Proof.
  intros sequelize proc w. split; [reflexivity|].
  unfold health_route, ready_route, healthCheck, try_catch, bind, read, ret.
  rewrite env_var_value.
  destruct probe as [u|error]; eexists; (split; [reflexivity|]);
    cbn -[Z.div megabytes]; repeat split; discriminate.
Qed.
